(** * Listening-port discovery of the remote extension host

    A shallow embedding of [ExtHostTunnelService.$findCandidatePorts] and of
    its helpers [getSockets], [loadListeningPorts] and [loadConnectionTable]
    (src/vs/workbench/api/node/extHostTunnelService.ts), together with the
    properties of the port discovery engine.

    Modelling conventions.
    - Text is ASCII (the kernel's pseudo-files and the output of [ls]): a
      JavaScript string is a [string], a character an [ascii].
    - A JavaScript number is [NaN] or an integer [Num z].  The numbers of this
      code are all produced by [parseInt]; the model keeps their mathematical
      value, which a double holds exactly below 2^53, and does not tell -0
      from 0.
    - A JavaScript exception is the [Throw] case of [result]; statements are
      sequenced in the order of the source, so that the first exception wins.
    - An object used as a dictionary is a [gmap]; the [Map] of
      [loadListeningPorts], whose iteration order is observable, is an
      association list in insertion order. *)

From Stdlib Require Import ZArith String Ascii List Lia DecimalString DecimalNat.
From stdpp Require Import base option list gmap strings.

Local Open Scope string_scope.
Local Open Scope list_scope.
Local Open Scope Z_scope.

(** ** Exceptions *)

Module Js.

Inductive exception : Type :=
  | TypeError     (* property access on undefined or null *)
  | SystemError.  (* a failed fs call *)

Inductive result (A : Type) : Type :=
  | Ok (a : A)
  | Throw (e : exception).
Arguments Ok {A} a.
Arguments Throw {A} e.

#[global] Instance result_ret : MRet result := fun A a => Ok a.
#[global] Instance result_bind : MBind result := fun A B f m =>
  match m with
  | Ok a => f a
  | Throw e => Throw e
  end.

Definition returns {A} (m : result A) : Prop := exists a, m = Ok a.

(** [Array.prototype.map] with a callback that may throw: elements are
    visited left to right and the first exception aborts the loop. *)
Fixpoint map_throwing {A B} (f : A -> result B) (l : list A) : result (list B) :=
  match l with
  | [] => Ok []
  | x :: l' => y ← f x; ys ← map_throwing f l'; Ok (y :: ys)
  end.

(** ** Numbers *)

Inductive number : Type :=
  | NaN
  | Num (z : Z).

#[global] Instance number_eq_dec : EqDecision number.
Proof. solve_decision. Defined.

#[global] Instance number_countable : Countable number :=
  inj_countable'
    (fun n => match n with NaN => None | Num z => Some z end)
    (fun o => match o with None => NaN | Some z => Num z end)
    (fun n => match n with NaN => eq_refl | Num _ => eq_refl end).

(** ** Characters *)

Definition code (c : ascii) : Z := Z.of_N (N_of_ascii c).

(** [\s] and the characters removed by [trim]: TAB, LF, VT, FF, CR, SP. *)
Definition is_white_space (c : ascii) : bool :=
  (code c =? 32) || ((9 <=? code c) && (code c <=? 13)).

(** Line terminators, which [.] does not match. *)
Definition is_line_terminator (c : ascii) : bool :=
  (code c =? 10) || (code c =? 13).

(** [\d] *)
Definition is_digit (c : ascii) : bool :=
  (48 <=? code c) && (code c <=? 57).

(** [[a-zA-Z]] *)
Definition is_letter (c : ascii) : bool :=
  ((97 <=? code c) && (code c <=? 122)) || ((65 <=? code c) && (code c <=? 90)).

(** The value of a digit in radix [R], as [parseInt] reads it. *)
Definition digit_value (R : Z) (c : ascii) : option Z :=
  let v :=
    if is_digit c then Some (code c - 48)
    else if (97 <=? code c) && (code c <=? 122) then Some (code c - 87)
    else if (65 <=? code c) && (code c <=? 90) then Some (code c - 55)
    else None in
  match v with
  | Some d => if d <? R then Some d else None
  | None => None
  end.

(** ** Strings *)

Fixpoint trimStart (s : string) : string :=
  match s with
  | EmptyString => EmptyString
  | String c s' => if is_white_space c then trimStart s' else s
  end.

Fixpoint trimEnd (s : string) : string :=
  match s with
  | EmptyString => EmptyString
  | String c s' =>
      match trimEnd s' with
      | EmptyString => if is_white_space c then EmptyString else String c EmptyString
      | t => String c t
      end
  end.

(** [String.prototype.trim] *)
Definition trim (s : string) : string := trimEnd (trimStart s).

(** [s.split(sep)] for a separator of one character. *)
Fixpoint split (sep : ascii) (s : string) : list string :=
  match s with
  | EmptyString => [EmptyString]
  | String c s' =>
      if Ascii.eqb c sep then EmptyString :: split sep s'
      else match split sep s' with
           | piece :: pieces => String c piece :: pieces
           | [] => [String c EmptyString]
           end
  end.

(** [s.split(/\s+/)]: the pieces between maximal runs of white space.
    [in_run] tells that the previous character was white space, so that the
    current run has already closed a piece. *)
Fixpoint split_ws_from (in_run : bool) (s : string) : list string :=
  match s with
  | EmptyString => [EmptyString]
  | String c s' =>
      if is_white_space c then
        if in_run then split_ws_from true s'
        else EmptyString :: split_ws_from true s'
      else match split_ws_from false s' with
           | piece :: pieces => String c piece :: pieces
           | [] => [String c EmptyString]
           end
  end.

Definition split_ws (s : string) : list string := split_ws_from false s.

(** The rest of [s] after the literal [p], when [s] starts with [p]. *)
Fixpoint strip_prefix (p s : string) : option string :=
  match p, s with
  | EmptyString, _ => Some s
  | String a p', String b s' => if Ascii.eqb a b then strip_prefix p' s' else None
  | String _ _, EmptyString => None
  end.

(** The longest prefix of characters satisfying [P], and the rest. *)
Fixpoint span (P : ascii -> bool) (s : string) : string * string :=
  match s with
  | EmptyString => (EmptyString, EmptyString)
  | String c s' =>
      if P c then let '(taken, rest) := span P s' in (String c taken, rest)
      else (EmptyString, s)
  end.

(** A greedy [X+] for a character class [X] that the next pattern character
    is not in: no shorter match can succeed where the longest one fails. *)
Definition plus (P : ascii -> bool) (s : string) : option (string * string) :=
  match span P s with
  | (EmptyString, _) => None
  | (taken, rest) => Some (taken, rest)
  end.

(** [s.indexOf(sub) !== -1] *)
Fixpoint includes (sub s : string) : bool :=
  match strip_prefix sub s with
  | Some _ => true
  | None => match s with
            | EmptyString => false
            | String _ s' => includes sub s'
            end
  end.

(** ** parseInt *)

Fixpoint parse_digits (R : Z) (s : string) (acc : option Z) : option Z :=
  match s with
  | EmptyString => acc
  | String c s' =>
      match digit_value R c with
      | Some d => parse_digits R s' (Some (default 0 acc * R + d))
      | None => acc
      end
  end.

(** [parseInt(s, R)] for an explicit radix [R]: leading white space and a sign
    are skipped, a [0x] prefix too when [R] is 16, then the longest prefix of
    digits is read; without a digit the result is [NaN].  The result is the
    integer that the digits write; the code has the double nearest to it,
    which is this integer up to 2^53 (16 digits of radix 10 or 14 of radix
    16 would be needed to pass it) and an approximation, or [Infinity],
    beyond.  The properties that state the value of a result bound the
    number of digits read. *)
Definition parseInt_string (s : string) (R : Z) : number :=
  let s := trimStart s in
  let '(sign, s) :=
    match s with
    | String "-" s' => (-1, s')
    | String "+" s' => (1, s')
    | _ => (1, s)
    end in
  let s :=
    if R =? 16 then
      match s with
      | String "0" (String "x" s') => s'
      | String "0" (String "X" s') => s'
      | _ => s
      end
    else s in
  match parse_digits R s None with
  | Some m => Num (sign * m)
  | None => NaN
  end.

(** The argument of [parseInt] goes through [ToString]: a missing property
    ([undefined]) reads as the text [undefined], which has no digit in radix
    10 or 16. *)
Definition parseInt (x : option string) (R : Z) : number :=
  parseInt_string (default "undefined" x) R.

(** ** Map *)

(** [Map.prototype.set] on a [Map] kept as its list of entries in insertion
    order: an existing key keeps its place and takes the new value, a new
    key goes to the end.  Keys are compared by SameValueZero, under which
    [NaN] equals itself. *)
Fixpoint Map_set {V} (m : list (number * V)) (k : number) (v : V) : list (number * V) :=
  match m with
  | [] => [(k, v)]
  | (k', v') :: m' =>
      if decide (k' = k) then (k, v) :: m' else (k', v') :: Map_set m' k v
  end.

(** [new Map(entries)] *)
Definition Map_new {V} (entries : list (number * V)) : list (number * V) :=
  foldl (fun m e => Map_set m e.1 e.2) [] entries.

(** [[...m.values()]] *)
Definition Map_values {V} (m : list (number * V)) : list V := m.*2.

End Js.

Import Js.

(** ** The records of the discovery engine *)

(** An entry of the process inventory, [{ pid, cwd, cmd }].  The scan of
    [/proc] keeps an entry only under [!isNaN(pid)], so [pid] is a number
    proper. *)
Record process : Type := { pid : Z; cwd : string; cmd : string }.

(** An entry of [getSockets], [{ pid, socket }]. *)
Record owner : Type := { owner_pid : number; owner_socket : number }.

(** An entry of [loadListeningPorts], [{ socket, ip, port }]. *)
Record connection : Type := { socket : number; ip : string; port : number }.

(** An entry of the result, [{ port, detail }]. *)
Record candidate : Type := { candidate_port : number; detail : string }.

(** What one call observes of the host: the platform flag, the two
    connection tables ([None] when [readFileSync] throws), the standard
    output of the [ls -l /proc/[0-9]*/fd/[0-9]* | grep socket:] pipeline
    (the callback of [exec] drops the error and resolves [stdout] whatever
    the pipeline did), the names that [readdirSync('/proc')] returns ([None]
    when it throws), and the inventory that the loop over these names
    gathers.  The loop reads the file system entry by entry, each entry under
    its own [try]/[catch], so that it cannot throw; it is taken as done and
    its array [processes] is an input. *)
Record host : Type := {
  isLinux : bool;
  proc_net_tcp : option string;
  proc_net_tcp6 : option string;
  procSockets : string;
  procChildren : option (list string);
  processes : list process
}.

Definition readFileSync (file : option string) : result string :=
  match file with
  | Some text => Ok text
  | None => Throw SystemError
  end.

Definition readdirSync (dir : option (list string)) : result (list string) :=
  match dir with
  | Some names => Ok names
  | None => Throw SystemError
  end.

(** ** loadConnectionTable *)

(** [String(i)] for an array index. *)
Definition index_key (i : nat) : string := NilZero.string_of_uint (Nat.to_uint i).

(** [names[i] || i]: the name of column [i], or the index itself when the
    header has no name there or an empty one. *)
Definition column_key (names : list string) (i : nat) : string :=
  match names !! i with
  | Some name => if decide (name = "") then index_key i else name
  | None => index_key i
  end.

(** [obj[key] = value] on an object literal: the assignment creates or
    overwrites an own property, except for the key [__proto__], which runs
    the inherited setter, and this one ignores a string. *)
Definition set_property (obj : gmap string string) (key value : string) : gmap string string :=
  if decide (key = "__proto__") then obj else <[key := value]> obj.

(** [values.reduce((obj, value, i) => { obj[names[i] || i] = value; return obj; }, obj)],
    from index [i] on. *)
Fixpoint reduce_row (names : list string) (i : nat) (values : list string)
    (obj : gmap string string) : gmap string string :=
  match values with
  | [] => obj
  | value :: values' =>
      reduce_row names (S i) values' (set_property obj (column_key names i) value)
  end.

Definition parse_row (names : list string) (line : string) : gmap string string :=
  reduce_row names 0 (split_ws (trim line)) ∅.

Definition header_names (header : string) : list string :=
  filter (fun name => name ≠ "rx_queue" ∧ name ≠ "tm->when") (split_ws (trim header)).

(** The lines of a blob: [stdout.trim().split('\n')]. *)
Definition lines_of (stdout : string) : list string := split "010" (trim stdout).

Definition loadConnectionTable (stdout : string) : result (list (gmap string string)) :=
  match lines_of stdout with
  | [] => Throw TypeError (* lines.shift()! would be undefined *)
  | header :: lines => Ok (map (parse_row (header_names header)) lines)
  end.

(** ** loadListeningPorts *)

(** The callback of the first [map]: [row.local_address.split(':')] throws
    on a row without that column. *)
Definition to_connection (row : gmap string string) : result connection :=
  match row !! "local_address" with
  | None => Throw TypeError
  | Some local_address =>
      let address := split ":" local_address in
      Ok {| socket := parseInt (row !! "inode") 10;
            ip := default "" (address !! 0%nat);
            port := parseInt (address !! 1%nat) 16 |}
  end.

(** The rows in listening state of all the tables, as connections, before
    the [Map] collapses them by port. *)
Definition listening_records (stdouts : list string) : result (list connection) :=
  tables ← map_throwing loadConnectionTable stdouts;
  map_throwing to_connection (filter (fun row => row !! "st" = Some "0A") (concat tables)).

Definition loadListeningPorts (stdouts : list string) : result (list connection) :=
  records ← listening_records stdouts;
  Ok (Map_values (Map_new (map (fun p => (port p, p)) records))).

(** ** getSockets *)

(** [/\/proc\/(\d+)\/fd\/\d+ -> socket:\[(\d+)\]/] tried at the start of [s];
    the two groups of a match. *)
Definition socket_re_at (s : string) : option (string * string) :=
  s ← strip_prefix "/proc/" s;
  '(g1, s) ← plus is_digit s;
  s ← strip_prefix "/fd/" s;
  '(_, s) ← plus is_digit s;
  s ← strip_prefix " -> socket:[" s;
  '(g2, s) ← plus is_digit s;
  _ ← strip_prefix "]" s;
  Some (g1, g2).

(** [RegExp.prototype.exec]: the leftmost position with a match. *)
Fixpoint socket_re_exec (line : string) : option (string * string) :=
  match socket_re_at line with
  | Some groups => Some groups
  | None => match line with
            | EmptyString => None
            | String _ line' => socket_re_exec line'
            end
  end.

(** The callback of [lines.map]: [match[1]] throws when [exec] returned
    [null]. *)
Definition to_owner (line : string) : result owner :=
  match socket_re_exec line with
  | None => Throw TypeError
  | Some (g1, g2) =>
      Ok {| owner_pid := parseInt (Some g1) 10; owner_socket := parseInt (Some g2) 10 |}
  end.

Definition getSockets (stdout : string) : result (list owner) :=
  map_throwing to_owner (lines_of stdout).

(** ** $findCandidatePorts *)

(** [command.match('.*\.vscode\-server\-[a-zA-Z]+\/bin.*')].  The argument is a
    string literal, in which the backslashes escape nothing: the pattern
    compiled is [.*.vscode-server-[a-zA-Z]+/bin.*], whose dot before [vscode]
    stands for any character but a line terminator.  [agent_dir_at] tries
    [.vscode-server-[a-zA-Z]+/bin] at the start of [s]. *)
Definition agent_dir_at (s : string) : bool :=
  match s with
  | EmptyString => false
  | String c s =>
      negb (is_line_terminator c) &&
      bool_decide (is_Some (
        s ← strip_prefix "vscode-server-" s;
        '(_, s) ← plus is_letter s;
        strip_prefix "/bin" s))
  end.

(** The leading and trailing [.*] may match nothing, so the pattern matches
    somewhere exactly when its middle does. *)
Fixpoint agent_dir_match (command : string) : bool :=
  agent_dir_at command ||
  match command with
  | EmptyString => false
  | String _ command' => agent_dir_match command'
  end.

(** The negation of the condition under which a port is pushed. *)
Definition excluded (command : string) : bool :=
  agent_dir_match command || includes "out/vs/server/main.js" command.

(** The two [reduce] calls building [socketMap] and [processMap]; the keys
    are the numbers, which [String] maps to distinct property names. *)
Definition socketMap_of (sockets : list owner) : gmap number owner :=
  foldl (fun m s => <[owner_socket s := s]> m) ∅ sockets.

Definition processMap_of (processes : list process) : gmap number process :=
  foldl (fun m p => <[Num (pid p) := p]> m) ∅ processes.

(** The body of the final [forEach], threading the array [ports]. *)
Fixpoint push_candidates (socketMap : gmap number owner) (processMap : gmap number process)
    (connections : list connection) (ports : list candidate) : result (list candidate) :=
  match connections with
  | [] => Ok ports
  | c :: connections' =>
      match socketMap !! socket c with
      | None => Throw TypeError
      | Some s =>
          match processMap !! owner_pid s with
          | None => Throw TypeError
          | Some p =>
              let command := cmd p in
              if negb (agent_dir_match command) && negb (includes "out/vs/server/main.js" command)
              then push_candidates socketMap processMap connections'
                     (ports ++ [{| candidate_port := port c; detail := cmd p |}])
              else push_candidates socketMap processMap connections' ports
          end
      end
  end.

Definition findCandidatePorts (h : host) : result (list candidate) :=
  if negb (isLinux h) then Ok []
  else
    tcp ← readFileSync (proc_net_tcp h);
    tcp6 ← readFileSync (proc_net_tcp6 h);
    _ ← readdirSync (procChildren h);
    connections ← loadListeningPorts [tcp; tcp6];
    sockets ← getSockets (procSockets h);
    let socketMap := socketMap_of sockets in
    let processMap := processMap_of (processes h) in
    push_candidates socketMap processMap
      (filter (fun c => is_Some (socketMap !! socket c)) connections) [].

(** ** Notions used by the properties *)

(** Every character of [s] satisfies [P]. *)
Fixpoint every (P : ascii -> bool) (s : string) : bool :=
  match s with
  | EmptyString => true
  | String c s' => P c && every P s'
  end.

(** A run of one or more characters of the class [P]. *)
Definition run_of (P : ascii -> bool) (s : string) : Prop :=
  s <> "" /\ every P s = true.

(** [sub] occurs in [s]. *)
Definition occurs_in (sub s : string) : Prop :=
  exists pre post, s = pre +:+ sub +:+ post.

(** The line shows, somewhere, a descriptor of process [pid] that is the
    socket of inode [inode]: the shape
    [/proc/<pid>/fd/<fd> -> socket:[<inode>]]. *)
Definition fd_shape (line pid inode : string) : Prop :=
  exists pre fd post,
    line = pre +:+ "/proc/" +:+ pid +:+ "/fd/" +:+ fd +:+ " -> socket:[" +:+ inode +:+ "]" +:+ post /\
    run_of is_digit pid /\ run_of is_digit fd /\ run_of is_digit inode.

(** The command line shows, somewhere, the installation directory of the
    agent as the pattern describes it: any character but a line terminator,
    then [vscode-server-], one or more letters and [/bin]. *)
Definition agent_dir_shape (command : string) : Prop :=
  exists pre c name post,
    command = pre +:+ String c ("vscode-server-" +:+ name +:+ "/bin" +:+ post) /\
    is_line_terminator c = false /\ run_of is_letter name.

(** Every line of the socket enumeration has the descriptor shape. *)
Definition all_lines_shaped (stdout : string) : Prop :=
  Forall (fun line => exists pid inode, fd_shape line pid inode) (lines_of stdout).

(** The pattern of [getSockets] matches every line of the socket
    enumeration. *)
Definition all_lines_match (stdout : string) : Prop :=
  Forall (fun line => is_Some (socket_re_exec line)) (lines_of stdout).

(** Every row in listening state of the table [stdout] has a
    [local_address] column. *)
Definition listening_rows_addressed (stdout : string) : Prop :=
  match loadConnectionTable stdout with
  | Ok rows =>
      Forall (fun row : gmap string string =>
                row !! "st" = Some "0A" -> is_Some (row !! "local_address")) rows
  | Throw _ => True
  end.

#[global] Instance all_lines_match_dec stdout : Decision (all_lines_match stdout).
Proof. unfold all_lines_match. apply _. Defined.

#[global] Instance listening_rows_addressed_dec stdout :
  Decision (listening_rows_addressed stdout).
Proof.
  unfold listening_rows_addressed. destruct (loadConnectionTable stdout); apply _.
Defined.

(** The columns that [loadListeningPorts] reads. *)
Definition consumed_columns : list string := ["local_address"; "st"; "inode"].

(** A column name that is stored under itself: not empty (an empty name
    gives way to the index), not [__proto__], and not the text of an index. *)
Definition named (k : string) : Prop :=
  k <> "" /\ k <> "__proto__" /\ forall n, index_key n <> k.

(** The record [c] is the last one of [records] for its port: the one a
    [Map] keyed by port keeps. *)
Definition last_for_port (records : list connection) (c : connection) : Prop :=
  exists pre post, records = pre ++ c :: post /\ Forall (fun c' => port c' <> port c) post.

(** The connection [c] is fully attributable: its inode has an entry in
    [socketMap], whose pid has the entry [p] in [processMap]. *)
Definition attributed (socketMap : gmap number owner) (processMap : gmap number process)
    (c : connection) (p : process) : Prop :=
  exists s, socketMap !! socket c = Some s /\ processMap !! owner_pid s = Some p.

(** ** Sample inputs *)

Definition LF : string := String "010" EmptyString.

(** A blob from its lines. *)
Definition unlines (ls : list string) : string :=
  foldr (fun l s => l +:+ LF +:+ s) "" ls.

(** The header lines of [/proc/net/tcp] and [/proc/net/tcp6]. *)
Definition tcp_header : string :=
  "  sl  local_address rem_address   st tx_queue rx_queue tr tm->when retrnsmt   uid  timeout inode".

Definition tcp6_header : string :=
  "  sl  local_address                         remote_address                        st tx_queue rx_queue tr tm->when retrnsmt   uid  timeout inode".

(** A row as the kernel prints it: [tx_queue] and [rx_queue] share a field,
    and so do [tr] and [tm->when]; seven unnamed fields follow the inode. *)
Definition tcp_line (sl local_address st inode : string) : string :=
  "   " +:+ sl +:+ ": " +:+ local_address +:+ " 00000000:0000 " +:+ st +:+
  " 00000000:00000000 00:00000000 00000000  1000        0 " +:+ inode +:+
  " 1 0000000000000000 100 0 0 10 0".

(** A line of [ls -l /proc/[0-9]*/fd/[0-9]*] kept by [grep socket:]. *)
Definition fd_line (pid fd inode : string) : string :=
  "lrwx------ 1 user user 64 Nov  2 10:00 /proc/" +:+ pid +:+ "/fd/" +:+ fd +:+
  " -> socket:[" +:+ inode +:+ "]".

(** An IPv4 table with one socket listening on 127.0.0.1:8080, inode 12345. *)
Definition tcp_8080 : string :=
  unlines [tcp_header; tcp_line "0" "0100007F:1F90" "0A" "12345"].

(** An IPv6 table without a socket. *)
Definition tcp6_empty : string := unlines [tcp6_header].

(** An IPv6 table with one socket listening on [::]:8080, inode 23456. *)
Definition tcp6_8080 : string :=
  unlines [tcp6_header; tcp_line "0" "00000000000000000000000000000000:1F90" "0A" "23456"].

(** An IPv4 table with sockets listening on ports 8080 and 3000, and an
    established connection (state 01) from port 40000 between them. *)
Definition tcp_two_listeners : string :=
  unlines [tcp_header;
           tcp_line "0" "0100007F:1F90" "0A" "12345";
           tcp_line "1" "0100007F:9C40" "01" "12347";
           tcp_line "2" "00000000:0BB8" "0A" "12346"].

(** An IPv6 table with one socket listening on [::]:9229, inode 23457. *)
Definition tcp6_9229 : string :=
  unlines [tcp6_header; tcp_line "0" "00000000000000000000000000000000:240D" "0A" "23457"].

Definition connection_12345 : connection :=
  {| socket := Num 12345; ip := "0100007F"; port := Num 8080 |}.

Definition connection_23456 : connection :=
  {| socket := Num 23456; ip := "00000000000000000000000000000000"; port := Num 8080 |}.

Definition owner_42 : owner := {| owner_pid := Num 42; owner_socket := Num 12345 |}.
Definition owner_43 : owner := {| owner_pid := Num 43; owner_socket := Num 23456 |}.

Definition myserver : process :=
  {| pid := 42; cwd := "/home/user"; cmd := "/usr/bin/myserver --port 8080" |}.

Definition otherserver : process :=
  {| pid := 43; cwd := "/srv"; cmd := "/usr/bin/python3 -m http.server 8080" |}.

Definition agent : process :=
  {| pid := 42; cwd := "/home/user";
     cmd := "/home/user/.vscode-server-insiders/bin/1a2b3c/node /home/user/.vscode-server-insiders/bin/1a2b3c/out/vs/server/main.js --port=0" |}.

(** Scenario A: pid 42 listens on port 8080 through inode 12345. *)
Definition scenario_A : host :=
  {| isLinux := true;
     proc_net_tcp := Some tcp_8080;
     proc_net_tcp6 := Some tcp6_empty;
     procSockets := unlines [fd_line "42" "3" "12345"];
     procChildren := Some ["1"; "42"; "cpuinfo"; "net"; "self"];
     processes := [myserver] |}.

(** Scenario B: scenario A with the agent's own command line for pid 42. *)
Definition scenario_B : host :=
  {| isLinux := true;
     proc_net_tcp := Some tcp_8080;
     proc_net_tcp6 := Some tcp6_empty;
     procSockets := unlines [fd_line "42" "3" "12345"];
     procChildren := Some ["1"; "42"; "cpuinfo"; "net"; "self"];
     processes := [agent] |}.

(** Scenario D: port 8080 is listened on twice, on IPv4 by pid 42 through
    inode 12345 and on IPv6 by pid 43 through inode 23456. *)
Definition scenario_D : host :=
  {| isLinux := true;
     proc_net_tcp := Some tcp_8080;
     proc_net_tcp6 := Some tcp6_8080;
     procSockets := unlines [fd_line "42" "3" "12345"; fd_line "43" "5" "23456"];
     procChildren := Some ["1"; "42"; "43"; "cpuinfo"; "net"; "self"];
     processes := [myserver; otherserver] |}.

(** The agent's command line under pid 43. *)
Definition agent_43 : process :=
  {| pid := 43; cwd := "/home/user"; cmd := cmd agent |}.

(** Scenario D when the later of the two listeners, on IPv6, is the agent
    itself: both records are fully attributable, to two processes. *)
Definition scenario_D_agent_last : host :=
  {| isLinux := true;
     proc_net_tcp := Some tcp_8080;
     proc_net_tcp6 := Some tcp6_8080;
     procSockets := unlines [fd_line "42" "3" "12345"; fd_line "43" "5" "23456"];
     procChildren := Some ["1"; "42"; "43"; "cpuinfo"; "net"; "self"];
     processes := [myserver; agent_43] |}.

(** The tables of scenario D when only the IPv4 socket has an owner: the
    descriptors of pid 43 could not be listed. *)
Definition scenario_shadow : host :=
  {| isLinux := true;
     proc_net_tcp := Some tcp_8080;
     proc_net_tcp6 := Some tcp6_8080;
     procSockets := unlines [fd_line "42" "3" "12345"];
     procChildren := Some ["1"; "42"; "43"; "cpuinfo"; "net"; "self"];
     processes := [myserver; otherserver] |}.

(** Scenario A after the owner of the socket has left the inventory: the
    process exited between the enumeration of the descriptors and the scan of
    [/proc], or one of its files could not be read. *)
Definition scenario_no_inventory : host :=
  {| isLinux := true;
     proc_net_tcp := Some tcp_8080;
     proc_net_tcp6 := Some tcp6_empty;
     procSockets := unlines [fd_line "42" "3" "12345"];
     procChildren := Some ["1"; "cpuinfo"; "net"; "self"];
     processes := [] |}.

(** A host on which the pipeline prints nothing: [grep] found no line. *)
Definition scenario_no_sockets : host :=
  {| isLinux := true;
     proc_net_tcp := Some (unlines [tcp_header]);
     proc_net_tcp6 := Some tcp6_empty;
     procSockets := "";
     procChildren := Some ["1"; "42"; "cpuinfo"; "net"; "self"];
     processes := [myserver] |}.

(** Another platform, where nothing can be read. *)
Definition scenario_not_linux : host :=
  {| isLinux := false;
     proc_net_tcp := None;
     proc_net_tcp6 := None;
     procSockets := "";
     procChildren := None;
     processes := [] |}.

(** A line of the pipeline for a descriptor that is no socket: pid 42 has
    opened the file [/tmp/socket:log], and [grep socket:] keeps the line for
    the name of the file. *)
Definition stray_line : string :=
  "l-wx------ 1 user user 64 Nov  2 10:00 /proc/42/fd/5 -> /tmp/socket:log".

(** A socket enumeration with this line after the line of a socket. *)
Definition listing_with_stray_line : string :=
  unlines [fd_line "42" "3" "12345"; stray_line].

(** A table as the kernel prints it, followed by a truncated row. *)
Definition table_with_short_row : string :=
  unlines [tcp_header; tcp_line "0" "0100007F:1F90" "0A" "12345"; "junk"].

(** A table whose header lists the consumed columns in another order. *)
Definition permuted_header : string := "inode rx_queue st tm->when local_address".
Definition permuted_line : string := "12345 0A 0100007F:1F90".
Definition permuted_table : string := unlines [permuted_header; permuted_line].

(** ** The tunnel view *)

(** The view that shows the result of the discovery: [TunnelViewModel],
    [TunnelDataSource], [TunnelItem] and [TunnelPanelDescriptor].  The tunnel
    model that it reads and [nls.localize] are declared elsewhere: the model
    is the record of what the view reads from it, and [localize] is a
    parameter of the definitions that format a text. *)

Inductive TunnelType : Type := Candidate | Detected | Forwarded | Add.

#[global] Instance TunnelType_eq_dec : EqDecision TunnelType.
Proof. solve_decision. Defined.

(** An argument of [nls.localize]. *)
Inductive arg : Type :=
  | ArgNumber (n : number)
  | ArgString (s : string)
  | ArgUndefined.

(** [nls.localize(key, message, ...args)] *)
Definition Localize : Type := string -> string -> list arg -> string.

(** Truthiness of an optional string: [undefined] and the empty string are
    falsy. *)
Definition truthy (s : option string) : bool :=
  match s with
  | Some EmptyString | None => false
  | Some _ => true
  end.

Definition arg_of (s : option string) : arg :=
  match s with
  | Some s => ArgString s
  | None => ArgUndefined
  end.

(** [Map.prototype.has] and [Map.prototype.size], on a [Map] kept as its
    entries. *)
Definition Map_has {V} (m : list (number * V)) (k : number) : bool :=
  bool_decide (k ∈ m.*1).

Definition Map_size {V} (m : list (number * V)) : Z := Z.of_nat (length m).

(** A tunnel of the model, with the fields that the view reads. *)
Module Tunnel.
Record t : Type := {
  remote : number;
  localAddress : option string;
  closeable : option bool;
  name : option string;
  description : option string
}.
End Tunnel.

(** What the view reads of the tunnel model: the [Map]s of the forwarded and
    of the detected tunnels, keyed by port, and the promise of the candidates
    (the [Throw] case is a rejected promise). *)
Module TunnelModel.
Record t : Type := {
  forwarded : list (number * Tunnel.t);
  detected : list (number * Tunnel.t);
  candidates : result (list candidate)
}.
End TunnelModel.

Module TunnelItem.
Record t : Type := {
  tunnelType : TunnelType;
  remote : number;
  localAddress : option string;
  closeable : option bool;
  name : option string;
  _description : option string
}.

Definition label (localize : Localize) (item : t) : string :=
  if truthy (name item) then
    localize "remote.tunnelsView.forwardedPortLabel0" "{0}" [arg_of (name item)]
  else if truthy (localAddress item) then
    localize "remote.tunnelsView.forwardedPortLabel2" "{0} to {1}"
      [ArgNumber (remote item); arg_of (localAddress item)]
  else
    localize "remote.tunnelsView.forwardedPortLabel3" "{0} not forwarded"
      [ArgNumber (remote item)].

Definition description (localize : Localize) (item : t) : option string :=
  if truthy (_description item) then _description item
  else if truthy (name item) then
    Some (localize "remote.tunnelsView.forwardedPortDescription0" "{0} to {1}"
            [ArgNumber (remote item); arg_of (localAddress item)])
  else None.
End TunnelItem.

Module ITunnelGroup.
Record t : Type := {
  tunnelType : TunnelType;
  label : string;
  items : option (list TunnelItem.t)
}.
End ITunnelGroup.

Module TunnelViewModel.

(** [get forwarded()] *)
Definition forwarded (model : TunnelModel.t) : list TunnelItem.t :=
  map (fun tunnel =>
         {| TunnelItem.tunnelType := Forwarded;
            TunnelItem.remote := Tunnel.remote tunnel;
            TunnelItem.localAddress := Tunnel.localAddress tunnel;
            TunnelItem.closeable := Tunnel.closeable tunnel;
            TunnelItem.name := Tunnel.name tunnel;
            TunnelItem._description := Tunnel.description tunnel |})
      (Map_values (TunnelModel.forwarded model)).

(** [get detected()] *)
Definition detected (model : TunnelModel.t) : list TunnelItem.t :=
  map (fun tunnel =>
         {| TunnelItem.tunnelType := Detected;
            TunnelItem.remote := Tunnel.remote tunnel;
            TunnelItem.localAddress := Tunnel.localAddress tunnel;
            TunnelItem.closeable := Some false;
            TunnelItem.name := Tunnel.name tunnel;
            TunnelItem._description := Tunnel.description tunnel |})
      (Map_values (TunnelModel.detected model)).

(** [new TunnelItem(TunnelType.Candidate, value.port, undefined, false, undefined, value.detail)] *)
Definition candidate_item (value : candidate) : TunnelItem.t :=
  {| TunnelItem.tunnelType := Candidate;
     TunnelItem.remote := candidate_port value;
     TunnelItem.localAddress := None;
     TunnelItem.closeable := Some false;
     TunnelItem.name := None;
     TunnelItem._description := Some (detail value) |}.

(** The body of [values.forEach], threading the array [candidates]. *)
Definition push_candidate (model : TunnelModel.t) (candidates : list TunnelItem.t)
    (value : candidate) : list TunnelItem.t :=
  if negb (Map_has (TunnelModel.forwarded model) (candidate_port value)) &&
     negb (Map_has (TunnelModel.detected model) (candidate_port value))
  then candidates ++ [candidate_item value]
  else candidates.

(** [get candidates()] *)
Definition candidates (model : TunnelModel.t) : result (list TunnelItem.t) :=
  values ← TunnelModel.candidates model;
  Ok (foldl (push_candidate model) [] values).

(** [groups()] *)
Definition groups (localize : Localize) (model : TunnelModel.t) : result (list ITunnelGroup.t) :=
  let groups := [] in
  let groups :=
    if 0 <? Map_size (TunnelModel.forwarded model) then
      groups ++ [{| ITunnelGroup.label := localize "remote.tunnelsView.forwarded" "Forwarded" [];
                    ITunnelGroup.tunnelType := Forwarded;
                    ITunnelGroup.items := Some (forwarded model) |}]
    else groups in
  let groups :=
    if 0 <? Map_size (TunnelModel.detected model) then
      groups ++ [{| ITunnelGroup.label := localize "remote.tunnelsView.detected" "Detected" [];
                    ITunnelGroup.tunnelType := Detected;
                    ITunnelGroup.items := Some (detected model) |}]
    else groups in
  candidates ← candidates model;
  let groups :=
    if (0 <? length candidates)%nat then
      groups ++ [{| ITunnelGroup.label := localize "remote.tunnelsView.candidates" "Candidates" [];
                    ITunnelGroup.tunnelType := Candidate;
                    ITunnelGroup.items := Some candidates |}]
    else groups in
  Ok (groups ++ [{| ITunnelGroup.label := localize "remote.tunnelsView.add" "Forward Port..." [];
                    ITunnelGroup.tunnelType := Add;
                    ITunnelGroup.items := None |}]).

End TunnelViewModel.

Module TunnelDataSource.

(** An element of the tree: the view model (its tunnel model), an item or a
    group. *)
Inductive element : Type :=
  | ViewModel (model : TunnelModel.t)
  | Item (item : TunnelItem.t)
  | Group (group : ITunnelGroup.t).

Definition hasChildren (e : element) : bool :=
  match e with
  | ViewModel _ => true
  | Item _ => false
  | Group group => bool_decide (is_Some (ITunnelGroup.items group))
  end.

Definition getChildren (localize : Localize) (e : element) : result (list element) :=
  match e with
  | ViewModel model => groups ← TunnelViewModel.groups localize model; Ok (map Group groups)
  | Item _ => Ok []
  | Group group =>
      match ITunnelGroup.items group with
      | Some items => Ok (map Item items)
      | None => Ok []
      end
  end.

End TunnelDataSource.

(** The [remoteAuthority] that the constructor of [TunnelPanelDescriptor]
    keeps: [remoteAuthority ? remoteAuthority.split('+')[0] : undefined]. *)
Definition descriptor_remoteAuthority (remoteAuthority : option string) : option string :=
  if truthy remoteAuthority then split "+" (default "" remoteAuthority) !! 0%nat else None.

(** ** Further notions used by the properties *)

(** The characters of [s] other than [c]. *)
Definition without (c : ascii) (s : string) : Prop :=
  every (fun c' => negb (Ascii.eqb c' c)) s = true.

(** A text of white space only. *)
Definition blank (s : string) : Prop := every is_white_space s = true.

(** A digit of radix 16. *)
Definition is_hex_digit (c : ascii) : bool := bool_decide (is_Some (digit_value 16 c)).

(** The rows of a table, which [loadConnectionTable] always returns. *)
Definition table_rows (stdout : string) : list (gmap string string) :=
  match loadConnectionTable stdout with
  | Ok rows => rows
  | Throw _ => []
  end.


(** The candidate is shown by the view: its port is neither forwarded nor
    detected. *)
Definition shown (model : TunnelModel.t) (value : candidate) : Prop :=
  (candidate_port value ∉ (TunnelModel.forwarded model).*1) /\
  (candidate_port value ∉ (TunnelModel.detected model).*1).

#[global] Instance shown_dec model value : Decision (shown model value).
Proof. unfold shown. apply _. Defined.

(** The length of the longest run of digits in [s], where [current] digits
    stand right before [s]. *)
Fixpoint longest_digit_run_from (current : nat) (s : string) : nat :=
  match s with
  | EmptyString => current
  | String c s' =>
      if is_digit c then longest_digit_run_from (S current) s'
      else Nat.max current (longest_digit_run_from 0 s')
  end.

Definition longest_digit_run (s : string) : nat := longest_digit_run_from 0 s.

(** No line of the enumeration writes a number of more than 15 digits: the
    numbers written are below 10^15, which is below 2^53, and [parseInt]
    gives them exactly. *)
Definition numbers_exact (stdout : string) : Prop :=
  Forall (fun line => (longest_digit_run line <= 15)%nat) (lines_of stdout).

#[global] Instance numbers_exact_dec stdout : Decision (numbers_exact stdout).
Proof. unfold numbers_exact. apply _. Defined.

(** The items that the view has for a group of type [T], given its candidate
    items; the entry to forward a port has none. *)
Definition items_of (model : TunnelModel.t) (candidates : list TunnelItem.t)
    (T : TunnelType) : option (list TunnelItem.t) :=
  match T with
  | Forwarded => Some (TunnelViewModel.forwarded model)
  | Detected => Some (TunnelViewModel.detected model)
  | Candidate => Some candidates
  | Add => None
  end.

(** A group of type [T] has something to show: items, at least one, or the
    entry to forward a port. *)
Definition present (model : TunnelModel.t) (candidates : list TunnelItem.t)
    (T : TunnelType) : bool :=
  match items_of model candidates T with
  | Some [] => false
  | _ => true
  end.

(** The host [h] with other working directories in its inventory. *)
Definition with_cwd (f : process -> string) (h : host) : host :=
  {| isLinux := isLinux h;
     proc_net_tcp := proc_net_tcp h;
     proc_net_tcp6 := proc_net_tcp6 h;
     procSockets := procSockets h;
     procChildren := procChildren h;
     processes := map (fun p => {| pid := pid p; cwd := f p; cmd := cmd p |}) (processes h) |}.

(** ** Sample inputs of the view *)

Definition tunnel_3000 : Tunnel.t :=
  {| Tunnel.remote := Num 3000;
     Tunnel.localAddress := Some "localhost:3000";
     Tunnel.closeable := Some true;
     Tunnel.name := None;
     Tunnel.description := None |}.

(** A model with port 3000 forwarded, nothing detected, and the given
    candidates. *)
Definition model_with (values : result (list candidate)) : TunnelModel.t :=
  {| TunnelModel.forwarded := [(Num 3000, tunnel_3000)];
     TunnelModel.detected := [];
     TunnelModel.candidates := values |}.

(** A localization that keeps the default message. *)
Definition default_message : Localize := fun _ message _ => message.

(** A group with items: they are of the type of the group and at least
    one. *)
Definition filled (g : ITunnelGroup.t) : Prop :=
  exists items,
    ITunnelGroup.items g = Some items /\ items <> [] /\
    forall item, item ∈ items -> TunnelItem.tunnelType item = ITunnelGroup.tunnelType g.

(** The last group of the view, which is the entry to forward a port. *)
Definition add_group (localize : Localize) : ITunnelGroup.t :=
  {| ITunnelGroup.label := localize "remote.tunnelsView.add" "Forward Port..." [];
     ITunnelGroup.tunnelType := Add;
     ITunnelGroup.items := None |}.

(** * Properties *)

(** ** The primitives on sample values *)

Example trim_sample : trim ("  sl  st " +:+ LF) = "sl  st".
Proof. reflexivity. Qed.

Example split_sample :
  split ":" "0100007F:1F90" = ["0100007F"; "1F90"] /\
  split ":" "" = [""] /\
  lines_of ("a" +:+ LF +:+ "b" +:+ LF) = ["a"; "b"].
Proof. repeat split. Qed.

Example split_ws_sample :
  split_ws "a  b c" = ["a"; "b"; "c"] /\
  split_ws "" = [""] /\
  split_ws " a " = [""; "a"; ""].
Proof. repeat split. Qed.

Example parseInt_sample :
  parseInt (Some "1F90") 16 = Num 8080 /\ parseInt (Some "0x1f90") 16 = Num 8080 /\
  parseInt (Some "12345") 10 = Num 12345 /\ parseInt (Some "12ab") 10 = Num 12 /\
  parseInt (Some "") 10 = NaN /\ parseInt None 10 = NaN /\ parseInt None 16 = NaN.
Proof. repeat split. Qed.

Example Map_sample :
  Map_values (Map_new [(Num 1, "a"); (Num 2, "b"); (Num 1, "c"); (NaN, "d"); (NaN, "e")]) =
  ["c"; "b"; "e"].
Proof. reflexivity. Qed.

Example header_names_sample :
  header_names tcp_header =
  ["sl"; "local_address"; "rem_address"; "st"; "tx_queue"; "tr"; "retrnsmt"; "uid";
   "timeout"; "inode"].
Proof. reflexivity. Qed.

Example excluded_sample :
  excluded (cmd agent) = true /\
  excluded "/home/user/.vscode-server-insiders/bin/1a2b3c/node --version" = true /\
  excluded "node /opt/server/out/vs/server/main.js" = true /\
  excluded (cmd myserver) = false.
Proof. repeat split; vm_compute; reflexivity. Qed.

(** ** Exceptions and loops *)

Lemma bind_Ok {A B} (m : result A) (f : A -> result B) (b : B) :
  m ≫= f = Ok b <-> exists a, m = Ok a /\ f a = Ok b.
Proof.
  destruct m as [a|e]; simpl; split.
  - intros H. exists a. auto.
  - intros (a' & [= <-] & H). exact H.
  - discriminate.
  - intros (a' & [=] & _).
Qed.

Lemma map_throwing_Ok {A B} (f : A -> result B) (l : list A) (r : list B) :
  map_throwing f l = Ok r <-> Forall2 (fun x y => f x = Ok y) l r.
Proof.
  revert r. induction l as [|x l IH]; intros r; simpl.
  - split.
    + intros [= <-]. constructor.
    + intros H. inversion H. reflexivity.
  - rewrite bind_Ok. split.
    + intros (y & Hy & H). apply bind_Ok in H as (ys & Hys & [= <-]).
      constructor; [exact Hy | apply IH, Hys].
    + intros H. inversion H as [|? y ? ys Hy Hys]; subst.
      exists y. split; [exact Hy|]. apply bind_Ok. exists ys.
      split; [apply IH, Hys | reflexivity].
Qed.

Lemma map_throwing_returns {A B} (f : A -> result B) (l : list A) :
  Forall (fun x => returns (f x)) l -> returns (map_throwing f l).
Proof.
  induction 1 as [|x l [y Hy] _ [ys Hys]]; simpl.
  - exists []. reflexivity.
  - exists (y :: ys). rewrite Hy. simpl. rewrite Hys. reflexivity.
Qed.

(** ** The Map keyed by port *)

Lemma Map_set_keys {V} (m : list (number * V)) k v :
  (Map_set m k v).*1 = if decide (k ∈ m.*1) then m.*1 else m.*1 ++ [k].
Proof.
  induction m as [|[k' v'] m IH].
  - case_decide as Hin; [|reflexivity]. by apply not_elem_of_nil in Hin.
  - cbn [Map_set]. destruct (decide (k' = k)) as [->|Hne].
    + rewrite decide_True; [reflexivity|]. rewrite fmap_cons. apply elem_of_cons; auto.
    + rewrite !fmap_cons, IH. cbn [fst].
      destruct (decide (k ∈ m.*1)) as [Hin|Hnin].
      * rewrite decide_True; [reflexivity | apply elem_of_cons; auto].
      * rewrite decide_False; [reflexivity|].
        rewrite elem_of_cons. intros [->|?]; auto.
Qed.

Lemma Map_set_NoDup {V} (m : list (number * V)) k v :
  NoDup m.*1 -> NoDup (Map_set m k v).*1.
Proof.
  intros Hm. rewrite Map_set_keys. destruct (decide (k ∈ m.*1)); [exact Hm|].
  apply NoDup_app. split; [exact Hm|]. split.
  - intros x Hx ->%list_elem_of_singleton. auto.
  - apply NoDup_singleton.
Qed.

Lemma elem_of_Map_set {V} (m : list (number * V)) k v (e : number * V) :
  NoDup m.*1 -> e ∈ Map_set m k v <-> e = (k, v) \/ (e ∈ m /\ e.1 <> k).
Proof.
  induction m as [|[k' v'] m IH]; simpl; intros Hm.
  - rewrite list_elem_of_singleton. split; [auto|].
    intros [?|[[]%not_elem_of_nil _]]; auto.
  - apply NoDup_cons in Hm as [Hk' Hm].
    destruct (decide (k' = k)) as [->|Hne]; rewrite !elem_of_cons.
    + split.
      * intros [?|He]; [auto|]. right. split; [auto|].
        intros Hk. apply Hk'. rewrite <- Hk. apply list_elem_of_fmap_2, He.
      * intros [?|[[->|He] Hk]]; auto. simpl in Hk. congruence.
    + rewrite IH by exact Hm. split.
      * intros [->|[?|[? ?]]]; auto.
      * intros [->|[[->|?] ?]]; auto.
Qed.

Lemma Map_new_snoc {V} (l : list (number * V)) e :
  Map_new (l ++ [e]) = Map_set (Map_new l) e.1 e.2.
Proof. unfold Map_new. rewrite foldl_app. reflexivity. Qed.

Lemma Map_new_NoDup {V} (l : list (number * V)) : NoDup (Map_new l).*1.
Proof.
  induction l as [|e l IH] using rev_ind.
  - apply NoDup_nil_2.
  - rewrite Map_new_snoc. apply Map_set_NoDup, IH.
Qed.

(** An entry survives in the [Map] exactly when no later entry has its key. *)
Lemma elem_of_Map_new {V} (l : list (number * V)) (e : number * V) :
  e ∈ Map_new l <->
  exists pre post, l = pre ++ e :: post /\ Forall (fun e' => e'.1 <> e.1) post.
Proof.
  induction l as [|x l IH] using rev_ind.
  - split.
    + intros []%not_elem_of_nil.
    + intros (pre & post & H & _). destruct pre; discriminate.
  - rewrite Map_new_snoc, elem_of_Map_set by apply Map_new_NoDup.
    rewrite IH. split.
    + intros [->|[(pre & post & -> & Hpost) Hne]].
      * exists l, []. destruct x. split; [reflexivity | constructor].
      * exists pre, (post ++ [x]). split; [by rewrite <- app_assoc|].
        apply Forall_app. split; [exact Hpost|]. constructor; [|constructor].
        intros Hx. apply Hne. symmetry. exact Hx.
    + intros (pre & post & Heq & Hpost).
      destruct post as [|y post _] using rev_ind.
      * apply (app_inj_tail l pre x e) in Heq as [-> ->]. left. by destruct e.
      * rewrite app_comm_cons, app_assoc in Heq.
        apply app_inj_tail in Heq as [-> ->]. right.
        apply Forall_app in Hpost as [Hpost Hy]. split.
        -- exists pre, post. auto.
        -- inversion Hy; subst. auto.
Qed.

Lemma port_entries_keyed (records : list connection) (e : number * connection) :
  e ∈ Map_new (map (fun p => (port p, p)) records) -> e = (port e.2, e.2).
Proof.
  intros (pre & post & Heq & _)%elem_of_Map_new.
  assert (e ∈ map (fun p => (port p, p)) records) as He.
  { rewrite Heq. apply elem_of_app. right. apply elem_of_cons. auto. }
  apply list_elem_of_fmap in He as (c & -> & _). reflexivity.
Qed.

Lemma port_entries_ports (records : list connection) :
  port <$> Map_values (Map_new (map (fun p => (port p, p)) records)) =
  (Map_new (map (fun p => (port p, p)) records)).*1.
Proof.
  unfold Map_values. rewrite <- list_fmap_compose.
  apply Forall_fmap_ext, Forall_forall. intros e He.
  apply port_entries_keyed in He. rewrite He at 2. reflexivity.
Qed.

(** What [loadListeningPorts] keeps of the listening records: for each port
    the last record, and nothing else. *)
Lemma elem_of_port_values (records : list connection) (c : connection) :
  c ∈ Map_values (Map_new (map (fun p => (port p, p)) records)) <->
  last_for_port records c.
Proof.
  unfold Map_values, last_for_port. split.
  - intros (e & -> & He)%list_elem_of_fmap.
    pose proof (port_entries_keyed _ _ He) as Hkey.
    apply elem_of_Map_new in He as (pre' & post' & Heq & Hpost).
    apply fmap_app_inv in Heq as (pre & rest & -> & Hrest & ->).
    symmetry in Hrest. apply fmap_cons_inv in Hrest as (c & post & Hc & -> & ->).
    subst e. simpl. exists pre, post. split; [reflexivity|].
    apply Forall_forall. intros c' Hc'.
    rewrite Forall_forall in Hpost.
    apply (Hpost (port c', c')).
    apply (list_elem_of_fmap_2 (fun p => (port p, p))), Hc'.
  - intros (pre & post & -> & Hpost).
    apply (list_elem_of_fmap_2' snd _ (port c, c)); [|reflexivity].
    apply elem_of_Map_new. exists (map (fun p => (port p, p)) pre),
      (map (fun p => (port p, p)) post).
    split; [by rewrite map_app|]. apply Forall_forall.
    intros e (c' & -> & Hc')%list_elem_of_fmap.
    rewrite Forall_forall in Hpost. apply Hpost, Hc'.
Qed.

Lemma NoDup_port_values (records : list connection) :
  NoDup (port <$> Map_values (Map_new (map (fun p => (port p, p)) records))).
Proof. rewrite port_entries_ports. apply Map_new_NoDup. Qed.

Lemma NoDup_fmap_elem_inj {A B} (f : A -> B) (l : list A) (x y : A) :
  NoDup (f <$> l) -> x ∈ l -> y ∈ l -> f x = f y -> x = y.
Proof.
  induction l as [|a l IH]; intros Hnd Hx Hy Hf.
  - by apply not_elem_of_nil in Hx.
  - rewrite fmap_cons in Hnd. apply NoDup_cons in Hnd as [Ha Hnd].
    apply elem_of_cons in Hx as [->|Hx]; apply elem_of_cons in Hy as [->|Hy].
    + reflexivity.
    + destruct Ha. rewrite Hf. apply list_elem_of_fmap_2, Hy.
    + destruct Ha. rewrite <- Hf. apply list_elem_of_fmap_2, Hx.
    + apply IH; assumption.
Qed.

Lemma filter_none {A} (P : A -> Prop) `{forall x, Decision (P x)} (l : list A) :
  (forall x, x ∈ l -> ~ P x) -> filter P l = [].
Proof.
  induction l as [|a l IH]; intros Hl; [reflexivity|].
  rewrite filter_cons, decide_False by (apply Hl, elem_of_cons; auto).
  apply IH. intros x Hx. apply Hl, elem_of_cons. auto.
Qed.

Lemma NoDup_fmap_filter_singleton {A B} `{EqDecision B} (f : A -> B) (l : list A) (x : A) :
  NoDup (f <$> l) -> x ∈ l -> filter (fun y => f y = f x) l = [x].
Proof.
  induction l as [|a l IH]; intros Hnd Hx.
  - by apply not_elem_of_nil in Hx.
  - rewrite fmap_cons in Hnd. apply NoDup_cons in Hnd as [Ha Hnd].
    rewrite filter_cons. apply elem_of_cons in Hx as [->|Hx].
    + rewrite decide_True by reflexivity. f_equal.
      apply filter_none. intros y Hy Hf.
      apply Ha. rewrite <- Hf. apply list_elem_of_fmap_2, Hy.
    + rewrite decide_False; [apply IH; assumption|].
      intros Hf. apply Ha. rewrite Hf. apply list_elem_of_fmap_2, Hx.
Qed.

(** ** Patterns *)

Lemma strip_prefix_Some p s r : strip_prefix p s = Some r <-> s = p +:+ r.
Proof.
  revert s. induction p as [|a p IH]; intros s; simpl.
  - split; [intros [= ->] | intros ->]; reflexivity.
  - destruct s as [|b s]; [split; discriminate|].
    destruct (Ascii.eqb_spec a b) as [->|Hne].
    + rewrite IH. split; [intros ->; reflexivity | intros [= ->]; reflexivity].
    + split; [discriminate | intros [= -> _]; by destruct Hne].
Qed.

Lemma span_app P taken rest :
  every P taken = true ->
  match rest with EmptyString => True | String c _ => P c = false end ->
  span P (taken +:+ rest) = (taken, rest).
Proof.
  intros Htaken Hrest. induction taken as [|c taken IH]; simpl in *.
  - destruct rest as [|c rest]; [reflexivity|]. simpl. by rewrite Hrest.
  - apply andb_prop in Htaken as [-> Htaken]. by rewrite IH.
Qed.

Lemma span_spec P s taken rest :
  span P s = (taken, rest) -> s = taken +:+ rest /\ every P taken = true.
Proof.
  revert taken rest. induction s as [|c s IH]; intros taken rest; simpl.
  - intros [= <- <-]. auto.
  - destruct (P c) eqn:Hc.
    + destruct (span P s) as [taken' rest']. intros [= <- <-].
      destruct (IH _ _ eq_refl) as [-> Hall]. simpl. rewrite Hc. auto.
    + intros [= <- <-]. auto.
Qed.

Lemma plus_app P taken rest :
  run_of P taken ->
  match rest with EmptyString => True | String c _ => P c = false end ->
  plus P (taken +:+ rest) = Some (taken, rest).
Proof.
  intros [Hne Hall] Hrest. unfold plus. rewrite span_app by assumption.
  destruct taken; [by destruct Hne | reflexivity].
Qed.

Lemma plus_spec P s taken rest :
  plus P s = Some (taken, rest) -> s = taken +:+ rest /\ run_of P taken.
Proof.
  unfold plus, run_of. destruct (span P s) as [taken' rest'] eqn:Hspan.
  apply span_spec in Hspan as [-> Hall].
  destruct taken'; [discriminate|]. intros [= <- <-]. split; [reflexivity|].
  split; [discriminate | exact Hall].
Qed.

(** [indexOf] finds exactly the occurrences. *)
Lemma includes_spec sub s : includes sub s = true <-> occurs_in sub s.
Proof.
  unfold occurs_in. split.
  - induction s as [|c s IH].
    + cbn [includes]. destruct (strip_prefix sub "") as [r|] eqn:Hr; [|discriminate].
      apply strip_prefix_Some in Hr. intros _. exists "", r. exact Hr.
    + cbn [includes]. destruct (strip_prefix sub (String c s)) as [r|] eqn:Hr.
      * apply strip_prefix_Some in Hr. intros _. exists "", r. exact Hr.
      * intros (pre & post & ->)%IH. exists (String c pre), post. reflexivity.
  - intros (pre & post & ->). induction pre as [|c pre IH].
    + assert (strip_prefix sub ("" +:+ sub +:+ post) = Some post) as Hr
        by (by apply strip_prefix_Some).
      change ("" +:+ ?x) with x in *.
      destruct (sub +:+ post); cbn [includes]; by rewrite Hr.
    + change (String c pre +:+ sub +:+ post) with (String c (pre +:+ sub +:+ post)).
      cbn [includes]. destruct (strip_prefix sub _); [reflexivity | exact IH].
Qed.

(** The matcher of the socket pattern finds a match exactly in the lines of
    the descriptor shape, and its groups are a pid and an inode of the line. *)
Lemma socket_re_at_spec s g1 g2 :
  socket_re_at s = Some (g1, g2) ->
  exists fd post,
    s = "/proc/" +:+ g1 +:+ "/fd/" +:+ fd +:+ " -> socket:[" +:+ g2 +:+ "]" +:+ post /\
    run_of is_digit g1 /\ run_of is_digit fd /\ run_of is_digit g2.
Proof.
  unfold socket_re_at.
  destruct (strip_prefix "/proc/" s) as [s1|] eqn:H1; [|discriminate].
  cbn [mbind option_bind].
  destruct (plus is_digit s1) as [[d1 s2]|] eqn:H2; [|discriminate].
  cbn [mbind option_bind].
  destruct (strip_prefix "/fd/" s2) as [s3|] eqn:H3; [|discriminate].
  cbn [mbind option_bind].
  destruct (plus is_digit s3) as [[d2 s4]|] eqn:H4; [|discriminate].
  cbn [mbind option_bind].
  destruct (strip_prefix " -> socket:[" s4) as [s5|] eqn:H5; [|discriminate].
  cbn [mbind option_bind].
  destruct (plus is_digit s5) as [[d3 s6]|] eqn:H6; [|discriminate].
  cbn [mbind option_bind].
  destruct (strip_prefix "]" s6) as [s7|] eqn:H7; [|discriminate].
  cbn [mbind option_bind]. intros [= <- <-].
  apply strip_prefix_Some in H1, H3, H5, H7.
  apply plus_spec in H2 as [-> Hd1], H4 as [-> Hd2], H6 as [-> Hd3].
  subst. exists d2, s7. auto.
Qed.

Lemma socket_re_at_complete pid fd inode post :
  run_of is_digit pid -> run_of is_digit fd -> run_of is_digit inode ->
  socket_re_at ("/proc/" +:+ pid +:+ "/fd/" +:+ fd +:+ " -> socket:[" +:+ inode +:+ "]" +:+ post)
  = Some (pid, inode).
Proof.
  intros Hpid Hfd Hinode. unfold socket_re_at.
  rewrite (proj2 (strip_prefix_Some "/proc/" _ _) eq_refl). cbn [mbind option_bind].
  rewrite (plus_app is_digit pid _ Hpid) by reflexivity. cbn [mbind option_bind].
  rewrite (proj2 (strip_prefix_Some "/fd/" _ _) eq_refl). cbn [mbind option_bind].
  rewrite (plus_app is_digit fd _ Hfd) by reflexivity. cbn [mbind option_bind].
  rewrite (proj2 (strip_prefix_Some " -> socket:[" _ _) eq_refl). cbn [mbind option_bind].
  rewrite (plus_app is_digit inode _ Hinode) by reflexivity. cbn [mbind option_bind].
  rewrite (proj2 (strip_prefix_Some "]" _ _) eq_refl). reflexivity.
Qed.

Lemma socket_re_exec_sound line g1 g2 :
  socket_re_exec line = Some (g1, g2) -> fd_shape line g1 g2.
Proof.
  induction line as [|c line IH].
  - cbn [socket_re_exec]. destruct (socket_re_at "") as [[a b]|] eqn:Hat; [|discriminate].
    intros [= -> ->]. apply socket_re_at_spec in Hat as (fd & post & Heq & H).
    exists "", fd, post. auto.
  - cbn [socket_re_exec].
    destruct (socket_re_at (String c line)) as [[a b]|] eqn:Hat.
    + intros [= -> ->]. apply socket_re_at_spec in Hat as (fd & post & Heq & H).
      exists "", fd, post. auto.
    + intros (pre & fd & post & -> & H)%IH. exists (String c pre), fd, post. auto.
Qed.

Lemma socket_re_exec_complete line pid inode :
  fd_shape line pid inode -> is_Some (socket_re_exec line).
Proof.
  intros (pre & fd & post & -> & Hpid & Hfd & Hinode).
  pose proof (socket_re_at_complete pid fd inode post Hpid Hfd Hinode) as Hat.
  induction pre as [|c pre IH].
  - change ("" +:+ ?s) with s. set (s := "/proc/" +:+ _) in *.
    destruct s; cbn [socket_re_exec]; rewrite Hat; eauto.
  - change (String c pre +:+ ?s) with (String c (pre +:+ s)).
    cbn [socket_re_exec]. destruct (socket_re_at (String c _)); [eauto | exact IH].
Qed.

Lemma socket_re_exec_shape line :
  is_Some (socket_re_exec line) <-> exists pid inode, fd_shape line pid inode.
Proof.
  split.
  - intros [[g1 g2] H]. exists g1, g2. by apply socket_re_exec_sound.
  - intros (pid & inode & H). by apply socket_re_exec_complete in H.
Qed.

Lemma all_lines_shaped_match stdout : all_lines_shaped stdout <-> all_lines_match stdout.
Proof.
  unfold all_lines_shaped, all_lines_match. rewrite !Forall_forall.
  split; intros H line Hline; apply socket_re_exec_shape, H, Hline.
Qed.

(** The matcher of the installation-directory pattern accepts exactly the
    command lines of the shape that the pattern describes. *)
Lemma agent_dir_at_spec s :
  agent_dir_at s = true <->
  exists c name post,
    s = String c ("vscode-server-" +:+ name +:+ "/bin" +:+ post) /\
    is_line_terminator c = false /\ run_of is_letter name.
Proof.
  unfold agent_dir_at. destruct s as [|c s].
  - split; [discriminate | intros (? & ? & ? & [=] & _)].
  - rewrite andb_true_iff, negb_true_iff, bool_decide_eq_true. split.
    + intros [Hc [post Hm]].
      destruct (strip_prefix "vscode-server-" s) as [s1|] eqn:H1; [|discriminate].
      cbn [mbind option_bind] in Hm.
      destruct (plus is_letter s1) as [[name s2]|] eqn:H2; [|discriminate].
      cbn [mbind option_bind] in Hm.
      apply strip_prefix_Some in H1, Hm. apply plus_spec in H2 as [-> Hname].
      subst. exists c, name, post. auto.
    + intros (c' & name & post & [= <- ->] & Hc & Hname). split; [exact Hc|].
      rewrite (proj2 (strip_prefix_Some "vscode-server-" _ _) eq_refl).
      cbn [mbind option_bind].
      rewrite (plus_app is_letter name _ Hname) by reflexivity.
      cbn [mbind option_bind].
      rewrite (proj2 (strip_prefix_Some "/bin" _ _) eq_refl). eauto.
Qed.

(** In particular the directory [.vscode-server-<letters>/bin] anywhere in the
    command line has this shape. *)
Lemma agent_dir_shape_dot pre name post :
  run_of is_letter name ->
  agent_dir_shape (pre +:+ ".vscode-server-" +:+ name +:+ "/bin" +:+ post).
Proof.
  intros Hname. exists pre, "."%char, name, post. auto.
Qed.

Lemma agent_dir_match_spec command :
  agent_dir_match command = true <-> agent_dir_shape command.
Proof.
  unfold agent_dir_shape. split.
  - induction command as [|c command IH]; cbn [agent_dir_match];
      rewrite orb_true_iff.
    + intros [H|H]; [|discriminate].
      apply agent_dir_at_spec in H as (? & ? & ? & [=] & _).
    + intros [H|H].
      * apply agent_dir_at_spec in H as (c' & name & post & -> & H).
        exists "", c', name, post. auto.
      * apply IH in H as (pre & c' & name & post & -> & H).
        exists (String c pre), c', name, post. auto.
  - intros (pre & c & name & post & -> & Hc & Hname).
    assert (agent_dir_at (String c ("vscode-server-" +:+ name +:+ "/bin" +:+ post)) = true)
      as Hat by (apply agent_dir_at_spec; exists c, name, post; auto).
    induction pre as [|c' pre IH].
    + change ("" +:+ ?s) with s. cbn [agent_dir_match]. by rewrite Hat.
    + change (String c' pre +:+ ?s) with (String c' (pre +:+ s)).
      cbn [agent_dir_match]. rewrite IH. apply orb_true_r.
Qed.

(** ** Rows of the connection table *)

Lemma consumed_columns_named k : k ∈ consumed_columns -> named k.
Proof.
  unfold consumed_columns. rewrite !elem_of_cons.
  intros [->|[->|[->|[]%not_elem_of_nil]]];
    (split; [discriminate|]; split; [discriminate|]);
    intros n; unfold index_key, NilZero.string_of_uint;
    destruct (Nat.to_uint n); discriminate.
Qed.

Lemma set_property_lookup_ne obj key value k :
  key <> k -> set_property obj key value !! k = obj !! k.
Proof.
  intros Hne. unfold set_property. case_decide; [reflexivity|].
  by apply lookup_insert_ne.
Qed.

Lemma set_property_lookup_eq obj k value :
  k <> "__proto__" -> set_property obj k value !! k = Some value.
Proof.
  intros Hne. unfold set_property. rewrite decide_False by exact Hne.
  apply lookup_insert_eq.
Qed.

Lemma column_key_named names i k :
  named k -> names !! i = Some k -> column_key names i = k.
Proof.
  intros (Hne & _ & _) Hi. unfold column_key. rewrite Hi.
  by rewrite decide_False.
Qed.

Lemma column_key_other names i k :
  named k -> names !! i <> Some k -> column_key names i <> k.
Proof.
  intros (_ & _ & Hidx) Hi. unfold column_key.
  destruct (names !! i) as [name|]; [|apply Hidx].
  case_decide; [apply Hidx | congruence].
Qed.

(** The values stored after the last column named [k] leave [k] alone. *)
Lemma reduce_row_untouched names i values obj k :
  named k -> (forall j, (i <= j)%nat -> names !! j <> Some k) ->
  reduce_row names i values obj !! k = obj !! k.
Proof.
  intros Hk. revert i obj. induction values as [|v vs IH]; intros i obj Hlater; simpl.
  - reflexivity.
  - rewrite IH by (intros j Hj; apply Hlater; lia).
    apply set_property_lookup_ne, column_key_other; [exact Hk|].
    apply Hlater. lia.
Qed.

(** The value at the position of the last column named [k] is the one stored
    under [k]. *)
Lemma reduce_row_aligned names i values obj k j v :
  named k -> (i <= j)%nat -> names !! j = Some k ->
  (forall j', (j < j')%nat -> names !! j' <> Some k) ->
  values !! (j - i)%nat = Some v ->
  reduce_row names i values obj !! k = Some v.
Proof.
  intros Hk. revert i obj.
  induction values as [|v0 vs IH]; intros i obj Hij Hj Hlast Hv; [discriminate|].
  simpl. destruct (decide (i = j)) as [->|Hne].
  - rewrite Nat.sub_diag in Hv. injection Hv as ->.
    rewrite reduce_row_untouched by (exact Hk || (intros j' Hj'; apply Hlast; lia)).
    rewrite (column_key_named _ _ _ Hk Hj).
    apply set_property_lookup_eq, Hk.
  - apply IH; [lia | exact Hj | exact Hlast |].
    replace (j - i)%nat with (S (j - S i)) in Hv by lia. exact Hv.
Qed.

Lemma reduce_row_keeps names i values obj k :
  is_Some (obj !! k) -> is_Some (reduce_row names i values obj !! k).
Proof.
  revert i obj. induction values as [|v vs IH]; intros i obj Hobj; simpl.
  - exact Hobj.
  - apply IH. unfold set_property. case_decide; [exact Hobj|].
    destruct (decide (column_key names i = k)) as [->|Hne].
    + rewrite lookup_insert_eq. eauto.
    + by rewrite lookup_insert_ne.
Qed.

Lemma reduce_row_present names i values obj k j :
  named k -> (i <= j)%nat -> names !! j = Some k ->
  (j - i < length values)%nat ->
  is_Some (reduce_row names i values obj !! k).
Proof.
  intros Hk. revert i obj.
  induction values as [|v0 vs IH]; intros i obj Hij Hj Hlen; simpl in *; [lia|].
  destruct (decide (i = j)) as [->|Hne].
  - apply reduce_row_keeps. rewrite (column_key_named _ _ _ Hk Hj).
    rewrite set_property_lookup_eq by apply Hk. eauto.
  - apply IH; [lia | exact Hj | lia].
Qed.

Lemma lookup_after_drop {A} (l : list A) (i j : nat) (x : A) :
  (i <= j)%nat -> l !! j = Some x -> x ∈ drop i l.
Proof.
  intros Hij Hj. apply list_elem_of_lookup. exists (j - i)%nat.
  rewrite lookup_drop. replace (i + (j - i))%nat with j by lia. exact Hj.
Qed.

(** ** The parsers return *)

Lemma split_not_nil sep s : split sep s <> [].
Proof.
  destruct s as [|c s]; simpl; [discriminate|].
  destruct (Ascii.eqb c sep); [discriminate|].
  destruct (split sep s); discriminate.
Qed.

Lemma loadConnectionTable_total stdout :
  exists header lines,
    lines_of stdout = header :: lines /\
    loadConnectionTable stdout = Ok (map (parse_row (header_names header)) lines).
Proof.
  unfold loadConnectionTable. destruct (lines_of stdout) as [|header lines] eqn:Hl.
  - by apply split_not_nil in Hl.
  - exists header, lines. auto.
Qed.

Lemma listening_records_returns tcp tcp6 :
  listening_rows_addressed tcp -> listening_rows_addressed tcp6 ->
  returns (listening_records [tcp; tcp6]).
Proof.
  unfold listening_rows_addressed, listening_records. simpl.
  destruct (loadConnectionTable_total tcp) as (h4 & l4 & _ & ->).
  destruct (loadConnectionTable_total tcp6) as (h6 & l6 & _ & ->).
  simpl. intros H4 H6. apply map_throwing_returns.
  rewrite app_nil_r. apply Forall_forall.
  intros row [Hst Hrow]%list_elem_of_filter.
  assert (is_Some (row !! "local_address")) as [a Ha].
  { apply elem_of_app in Hrow as [Hrow|Hrow].
    - rewrite Forall_forall in H4. by apply H4.
    - rewrite Forall_forall in H6. by apply H6. }
  unfold to_connection. rewrite Ha. eexists. reflexivity.
Qed.

Lemma getSockets_returns stdout :
  all_lines_match stdout -> returns (getSockets stdout).
Proof.
  intros Hall. apply map_throwing_returns.
  eapply Forall_impl; [exact Hall|]. intros line [[g1 g2] Hm].
  unfold to_owner. rewrite Hm. eexists. reflexivity.
Qed.

(** ** The final loop *)

Lemma push_candidates_Ok socketMap processMap connections ports result :
  push_candidates socketMap processMap connections ports = Ok result ->
  exists added,
    result = ports ++ added /\
    candidate_port <$> added `sublist_of` port <$> connections /\
    forall e, e ∈ added <->
      exists c p, c ∈ connections /\ attributed socketMap processMap c p /\
        excluded (cmd p) = false /\
        e = {| candidate_port := port c; detail := cmd p |}.
Proof.
  revert ports. induction connections as [|c cs IH]; intros ports; simpl.
  - intros [= <-]. exists []. rewrite app_nil_r. split; [reflexivity|].
    split; [constructor|]. intros e. split.
    + intros []%not_elem_of_nil.
    + intros (c & p & []%not_elem_of_nil & _).
  - destruct (socketMap !! socket c) as [s|] eqn:Hs; [|discriminate].
    destruct (processMap !! owner_pid s) as [p|] eqn:Hp; [|discriminate].
    rewrite <- negb_orb. fold (excluded (cmd p)).
    destruct (excluded (cmd p)) eqn:Hex; simpl; intros H;
      apply IH in H as (added & -> & Hsub & Hin).
    + exists added. split; [reflexivity|]. split; [by apply sublist_cons|].
      intros e. rewrite Hin. split.
      * intros (c' & p' & Hc' & H'). exists c', p'. rewrite elem_of_cons. auto.
      * intros (c' & p' & [->|Hc']%elem_of_cons & Hatt & Hex' & He).
        -- destruct Hatt as (s' & Hs' & Hp'). congruence.
        -- exists c', p'. auto.
    + exists ({| candidate_port := port c; detail := cmd p |} :: added).
      split; [by rewrite <- app_assoc|]. split; [by apply sublist_skip|].
      intros e. rewrite elem_of_cons, Hin. split.
      * intros [->|(c' & p' & Hc' & H')].
        -- exists c, p. rewrite elem_of_cons. split; [auto|].
           split; [exists s; auto | auto].
        -- exists c', p'. rewrite elem_of_cons. auto.
      * intros (c' & p' & [->|Hc']%elem_of_cons & Hatt & Hex' & He).
        -- left. destruct Hatt as (s' & Hs' & Hp'). congruence.
        -- right. exists c', p'. auto.
Qed.

Lemma push_candidates_returns socketMap processMap connections ports :
  (forall c, c ∈ connections -> exists p, attributed socketMap processMap c p) ->
  returns (push_candidates socketMap processMap connections ports).
Proof.
  revert ports. induction connections as [|c cs IH]; intros ports Hall; simpl.
  - exists ports. reflexivity.
  - destruct (Hall c) as (p & s & -> & ->); [apply elem_of_cons; auto|].
    assert (forall c', c' ∈ cs -> exists p, attributed socketMap processMap c' p) as Hcs.
    { intros c' Hc'. apply Hall, elem_of_cons. auto. }
    destruct (_ && _); apply IH, Hcs.
Qed.

Lemma push_candidates_Ok_attributed socketMap processMap connections ports result :
  push_candidates socketMap processMap connections ports = Ok result ->
  forall c, c ∈ connections -> exists p, attributed socketMap processMap c p.
Proof.
  revert ports. induction connections as [|c0 cs IH]; intros ports; simpl.
  - intros _ c []%not_elem_of_nil.
  - destruct (socketMap !! socket c0) as [s|] eqn:Hs; [|discriminate].
    destruct (processMap !! owner_pid s) as [p|] eqn:Hp; [|discriminate].
    intros H c [->|Hc]%elem_of_cons.
    + exists p, s. auto.
    + destruct (_ && _); eapply IH; eauto.
Qed.

(** ** The facade *)

Lemma findCandidatePorts_Ok h ports :
  isLinux h = true ->
  findCandidatePorts h = Ok ports <->
  exists tcp tcp6 connections sockets,
    proc_net_tcp h = Some tcp /\ proc_net_tcp6 h = Some tcp6 /\
    loadListeningPorts [tcp; tcp6] = Ok connections /\
    getSockets (procSockets h) = Ok sockets /\
    is_Some (procChildren h) /\
    push_candidates (socketMap_of sockets) (processMap_of (processes h))
      (filter (fun c => is_Some (socketMap_of sockets !! socket c)) connections) [] = Ok ports.
Proof.
  intros Hlinux. unfold findCandidatePorts. rewrite Hlinux. simpl. split.
  - destruct (proc_net_tcp h) as [tcp|]; [simpl|discriminate].
    destruct (proc_net_tcp6 h) as [tcp6|]; [simpl|discriminate].
    destruct (procChildren h) as [names|]; [simpl|discriminate].
    intros (connections & Hc & (sockets & Hs & H)%bind_Ok)%bind_Ok.
    exists tcp, tcp6, connections, sockets. eauto 10.
  - intros (tcp & tcp6 & connections & sockets & -> & -> & Hc & Hs & [names ->] & H). simpl.
    apply bind_Ok. exists connections. split; [exact Hc|].
    apply bind_Ok. exists sockets. auto.
Qed.

Lemma findCandidatePorts_not_linux h :
  isLinux h = false -> findCandidatePorts h = Ok [].
Proof. intros Hgate. unfold findCandidatePorts. rewrite Hgate. reflexivity. Qed.

Lemma loadListeningPorts_Ok stdouts connections :
  loadListeningPorts stdouts = Ok connections <->
  exists records, listening_records stdouts = Ok records /\
    connections = Map_values (Map_new (map (fun p => (port p, p)) records)).
Proof.
  unfold loadListeningPorts. rewrite bind_Ok. split.
  - intros (records & Hr & [= <-]). eauto.
  - intros (records & Hr & ->). eauto.
Qed.

(** ** The entries of the result *)

Section Facade.
Context (h : host) (tcp tcp6 : string) (connections : list connection)
  (sockets : list owner) (ports : list candidate).
Hypothesis Hlinux : isLinux h = true.
Hypothesis Htcp : proc_net_tcp h = Some tcp.
Hypothesis Htcp6 : proc_net_tcp6 h = Some tcp6.
Hypothesis Hconnections : loadListeningPorts [tcp; tcp6] = Ok connections.
Hypothesis Hsockets : getSockets (procSockets h) = Ok sockets.
Hypothesis Hports : findCandidatePorts h = Ok ports.

Let socketMap := socketMap_of sockets.
Let processMap := processMap_of (processes h).

Lemma facade_loop :
  push_candidates socketMap processMap
    (filter (fun c => is_Some (socketMap !! socket c)) connections) [] = Ok ports.
Proof using All.
  destruct (proj1 (findCandidatePorts_Ok _ _ Hlinux) Hports)
    as (tcp' & tcp6' & connections' & sockets' & H4 & H6 & Hc & Hs & _ & H).
  rewrite Htcp in H4. rewrite Htcp6 in H6. injection H4 as <-. injection H6 as <-.
  rewrite Hconnections in Hc. rewrite Hsockets in Hs.
  injection Hc as <-. injection Hs as <-. exact H.
Qed.

Lemma NoDup_connections : NoDup (port <$> connections).
Proof using Hconnections.
  apply loadListeningPorts_Ok in Hconnections as (records & _ & ->).
  apply NoDup_port_values.
Qed.

Lemma elem_of_result e :
  e ∈ ports <->
  exists c p, c ∈ connections /\ attributed socketMap processMap c p /\
    excluded (cmd p) = false /\
    e = {| candidate_port := port c; detail := cmd p |}.
Proof using All.
  destruct (push_candidates_Ok _ _ _ _ _ facade_loop) as (added & -> & _ & Hin).
  simpl. rewrite Hin. split.
  - intros (c & p & [_ Hc]%list_elem_of_filter & H). eauto.
  - intros (c & p & Hc & Hatt & H). exists c, p.
    split; [|auto]. apply list_elem_of_filter. split; [|exact Hc].
    destruct Hatt as (s & Hs & _). rewrite Hs. eauto.
Qed.

Lemma NoDup_result : NoDup (candidate_port <$> ports).
Proof using All.
  destruct (push_candidates_Ok _ _ _ _ _ facade_loop) as (added & -> & Hsub & _).
  simpl. eapply sublist_NoDup; [|exact Hsub].
  eapply sublist_NoDup; [apply NoDup_connections|].
  apply fmap_sublist, sublist_filter.
Qed.

(** A connection without a process to show, or with an excluded one, leaves
    its port out of the result. *)
Lemma dropped_connection c :
  c ∈ connections ->
  (forall p, attributed socketMap processMap c p -> excluded (cmd p) = true) ->
  port c ∉ candidate_port <$> ports.
Proof using All.
  intros Hc Hdrop (e & He & (c' & p & Hc' & Hatt & Hex & ->)%elem_of_result)%list_elem_of_fmap.
  simpl in He.
  assert (c = c') as <- by (eapply NoDup_fmap_elem_inj; eauto using NoDup_connections).
  rewrite (Hdrop p Hatt) in Hex. discriminate.
Qed.

(** An attributable connection with a command line that is not excluded
    gives the one entry of its port. *)
Lemma kept_connection c p :
  c ∈ connections -> attributed socketMap processMap c p -> excluded (cmd p) = false ->
  filter (fun e => candidate_port e = port c) ports =
    [{| candidate_port := port c; detail := cmd p |}].
Proof using All.
  intros Hc Hatt Hex.
  apply (NoDup_fmap_filter_singleton candidate_port ports
           {| candidate_port := port c; detail := cmd p |} NoDup_result).
  apply elem_of_result. exists c, p. auto.
Qed.
End Facade.

Lemma attributed_functional socketMap processMap c p p' :
  attributed socketMap processMap c p -> attributed socketMap processMap c p' -> p = p'.
Proof. intros (s & Hs & Hp) (s' & Hs' & Hp'). congruence. Qed.

Lemma map_throwing_app {A B} (f : A -> result B) (l1 l2 : list A) r1 r2 :
  map_throwing f l1 = Ok r1 -> map_throwing f l2 = Ok r2 ->
  map_throwing f (l1 ++ l2) = Ok (r1 ++ r2).
Proof.
  rewrite !map_throwing_Ok. apply Forall2_app.
Qed.

(** The records of the IPv4 table come before those of the IPv6 table. *)
Lemma listening_records_concat tcp tcp6 r4 r6 :
  listening_records [tcp] = Ok r4 -> listening_records [tcp6] = Ok r6 ->
  listening_records [tcp; tcp6] = Ok (r4 ++ r6).
Proof.
  unfold listening_records. simpl.
  destruct (loadConnectionTable_total tcp) as (h4 & l4 & _ & ->).
  destruct (loadConnectionTable_total tcp6) as (h6 & l6 & _ & ->).
  simpl. rewrite !app_nil_r, filter_app. apply map_throwing_app.
Qed.

(** A listening connection whose inode has an owner without an entry in the
    inventory makes the whole call throw. *)
Lemma unlisted_owner_raises h tcp tcp6 connections sockets c s :
  isLinux h = true ->
  proc_net_tcp h = Some tcp -> proc_net_tcp6 h = Some tcp6 ->
  loadListeningPorts [tcp; tcp6] = Ok connections ->
  getSockets (procSockets h) = Ok sockets ->
  c ∈ connections ->
  socketMap_of sockets !! socket c = Some s ->
  processMap_of (processes h) !! owner_pid s = None ->
  ~ returns (findCandidatePorts h).
Proof.
  intros Hlinux H4 H6 Hc Hs Hin Hsock Hproc [ports Hports].
  pose proof (facade_loop h tcp tcp6 connections sockets ports Hlinux H4 H6 Hc Hs Hports)
    as Hloop.
  destruct (push_candidates_Ok_attributed _ _ _ _ _ Hloop c) as (p & s' & Hs' & Hp).
  - apply list_elem_of_filter. split; [rewrite Hsock; eauto | exact Hin].
  - congruence.
Qed.

(** ** C1: the facade raises *)

(** C1. The facade raises to its caller.  On a Linux host whose pipeline
    prints nothing ([grep] found no line, or [ls] failed: the callback of
    [exec] drops the error and resolves [stdout] as it is), with both tables
    and [/proc] readable and no socket listening, the trimmed enumeration has
    the empty line as its only line, the pattern does not match it, [exec]
    gives [null] and [match[1]] throws a TypeError through [getSockets] and
    [$findCandidatePorts]: no list is returned, not even the empty one. *)
Theorem facade_raises_on_empty_socket_listing :
  isLinux scenario_no_sockets = true /\
  loadListeningPorts [unlines [tcp_header]; tcp6_empty] = Ok [] /\
  procSockets scenario_no_sockets = "" /\
  lines_of (procSockets scenario_no_sockets) = [""] /\
  socket_re_exec "" = None /\
  getSockets (procSockets scenario_no_sockets) = Throw TypeError /\
  findCandidatePorts scenario_no_sockets = Throw TypeError /\
  ~ returns (findCandidatePorts scenario_no_sockets).
Proof.
  assert (findCandidatePorts scenario_no_sockets = Throw TypeError) as H
    by (vm_compute; reflexivity).
  do 6 (split; [vm_compute; reflexivity|]). split; [exact H|].
  intros [ports Hports]. rewrite H in Hports. discriminate.
Qed.

(** ** C2: a listening socket whose owner is not in the inventory *)

(** C2. The half of the claim about the inventory fails on the code: with the
    row of scenario A in listening state, its inode owned by pid 42 and no
    inventory entry for pid 42, the record is not dropped:
    [processMap[socketMap[socket].pid].cmd] throws and the call has no
    result. *)
Theorem missing_inventory_entry_raises :
  loadListeningPorts [tcp_8080; tcp6_empty] = Ok [connection_12345] /\
  getSockets (procSockets scenario_no_inventory) = Ok [owner_42] /\
  processMap_of (processes scenario_no_inventory) !! Num 42 = None /\
  findCandidatePorts scenario_no_inventory = Throw TypeError.
Proof. repeat split; vm_compute; reflexivity. Qed.

(** ** C3: one entry per port *)

(** C3, as stated, fails: two listening records that resolve to the same
    port need not leave an entry of this port.  Port 8080 is listened on
    through inode 12345 of pid 42 and, in the IPv6 table, through inode 23456
    of pid 43; both records are fully attributable and the command line of
    pid 42 is not excluded, but pid 43 is the agent: the later record is the
    one kept for the port, it is excluded, and the result has no entry of
    port 8080 at all.  The same happens when the later record has no
    owner. *)
Lemma shared_port_without_entry :
  listening_records [tcp_8080; tcp6_8080] = Ok [connection_12345; connection_23456] /\
  port connection_12345 = port connection_23456 /\
  getSockets (procSockets scenario_D_agent_last) = Ok [owner_42; owner_43] /\
  attributed (socketMap_of [owner_42; owner_43])
    (processMap_of (processes scenario_D_agent_last)) connection_12345 myserver /\
  attributed (socketMap_of [owner_42; owner_43])
    (processMap_of (processes scenario_D_agent_last)) connection_23456 agent_43 /\
  excluded (cmd myserver) = false /\
  findCandidatePorts scenario_D_agent_last = Ok [] /\
  findCandidatePorts scenario_shadow = Ok [].
Proof.
  split; [vm_compute; reflexivity|]. split; [reflexivity|].
  split; [vm_compute; reflexivity|].
  split; [exists owner_42; split; vm_compute; reflexivity|].
  split; [exists owner_43; split; vm_compute; reflexivity|].
  repeat split; vm_compute; reflexivity.
Qed.

(** C3, amended. A result never holds two entries of the same port.  Of the
    listening records that share a port, IPv4 rows before IPv6 rows, only
    the last one counts: when it is attributable to a process whose command
    line is not excluded, the result holds exactly one entry of this port,
    with this command line; when it is not attributable, or its command line
    is excluded, the result holds no entry of this port, whatever the other
    records are.  In scenario D, where port 8080 is listened on through two
    inodes of two processes, the result is the one entry of the later
    record. *)
Theorem unique_ports :
  (forall h ports,
     findCandidatePorts h = Ok ports -> NoDup (candidate_port <$> ports)) /\
  (forall h tcp tcp6 records sockets ports c,
     isLinux h = true ->
     proc_net_tcp h = Some tcp -> proc_net_tcp6 h = Some tcp6 ->
     listening_records [tcp; tcp6] = Ok records ->
     getSockets (procSockets h) = Ok sockets ->
     findCandidatePorts h = Ok ports ->
     last_for_port records c ->
     (forall p,
        attributed (socketMap_of sockets) (processMap_of (processes h)) c p ->
        excluded (cmd p) = false ->
        filter (fun e => candidate_port e = port c) ports =
          [{| candidate_port := port c; detail := cmd p |}]) /\
     ((forall p,
         attributed (socketMap_of sockets) (processMap_of (processes h)) c p ->
         excluded (cmd p) = true) ->
      filter (fun e => candidate_port e = port c) ports = [])) /\
  findCandidatePorts scenario_D =
    Ok [{| candidate_port := Num 8080; detail := "/usr/bin/python3 -m http.server 8080" |}].
Proof.
  split; [|split].
  - intros h ports Hports. destruct (isLinux h) eqn:Hlinux.
    + destruct (proj1 (findCandidatePorts_Ok _ _ Hlinux) Hports)
        as (tcp & tcp6 & connections & sockets & H4 & H6 & Hc & Hs & _).
      exact (NoDup_result h tcp tcp6 connections sockets ports Hlinux H4 H6 Hc Hs Hports).
    + rewrite findCandidatePorts_not_linux in Hports by exact Hlinux. injection Hports as <-.
      apply NoDup_nil_2.
  - intros h tcp tcp6 records sockets ports c Hlinux H4 H6 Hr Hs Hports Hlast.
    assert (loadListeningPorts [tcp; tcp6] =
            Ok (Map_values (Map_new (map (fun p => (port p, p)) records)))) as Hc.
    { apply loadListeningPorts_Ok. eauto. }
    apply elem_of_port_values in Hlast. split.
    + intros p Hatt Hex.
      exact (kept_connection h tcp tcp6 _ sockets ports Hlinux H4 H6 Hc Hs Hports c p
               Hlast Hatt Hex).
    + intros Hdrop. apply filter_none. intros e He Hport.
      apply (dropped_connection h tcp tcp6 _ sockets ports Hlinux H4 H6 Hc Hs Hports c
               Hlast Hdrop).
      rewrite <- Hport. apply list_elem_of_fmap. eauto.
  - vm_compute. reflexivity.
Qed.

Lemma unique_ports_witness :
  let e := {| candidate_port := Num 8080; detail := cmd otherserver |} in
  NoDup (candidate_port <$> [e]) /\
  filter (fun e' => candidate_port e' = Num 8080) [e] = [e] /\
  filter (fun e' => candidate_port e' = Num 8080) ([] : list candidate) = [].
Proof.
  split; [|split].
  - apply (proj1 unique_ports scenario_D). vm_compute. reflexivity.
  - apply (proj1 (proj2 unique_ports) scenario_D tcp_8080 tcp6_8080
             [connection_12345; connection_23456] [owner_42; owner_43] _
             connection_23456); try (vm_compute; reflexivity).
    + exists [connection_12345], []. split; [reflexivity | constructor].
    + exists owner_43. split; vm_compute; reflexivity.
  - apply (proj1 (proj2 unique_ports) scenario_D_agent_last tcp_8080 tcp6_8080
             [connection_12345; connection_23456] [owner_42; owner_43] []
             connection_23456); try (vm_compute; reflexivity).
    + exists [connection_12345], []. split; [reflexivity | constructor].
    + intros p (s & Hs & Hp). vm_compute in Hs. injection Hs as <-.
      vm_compute in Hp. injection Hp as <-. vm_compute. reflexivity.
Defined.

(** ** C4: self-exclusion *)

(** C4. A listening connection that is fully attributable to a process whose
    command line shows the installation directory of the agent
    ([vscode-server-] after any character, letters, [/bin]) or contains
    [out/vs/server/main.js] leaves its port out of the result, and no entry
    of a result carries such a command line; in scenario B, where the command
    line is the agent's own, the result is empty. *)
Theorem self_exclusion :
  (forall h tcp tcp6 connections sockets ports c p,
     isLinux h = true ->
     proc_net_tcp h = Some tcp -> proc_net_tcp6 h = Some tcp6 ->
     loadListeningPorts [tcp; tcp6] = Ok connections ->
     getSockets (procSockets h) = Ok sockets ->
     findCandidatePorts h = Ok ports ->
     c ∈ connections ->
     attributed (socketMap_of sockets) (processMap_of (processes h)) c p ->
     agent_dir_shape (cmd p) \/ occurs_in "out/vs/server/main.js" (cmd p) ->
     port c ∉ candidate_port <$> ports) /\
  (forall h ports e,
     findCandidatePorts h = Ok ports -> e ∈ ports ->
     ~ agent_dir_shape (detail e) /\ ~ occurs_in "out/vs/server/main.js" (detail e)) /\
  findCandidatePorts scenario_B = Ok [].
Proof.
  split; [|split].
  - intros h tcp tcp6 connections sockets ports c p Hlinux H4 H6 Hc Hs Hports Hin Hatt Hex.
    apply (dropped_connection h tcp tcp6 connections sockets ports Hlinux H4 H6 Hc Hs Hports c Hin).
    intros p' Hatt'. rewrite <- (attributed_functional _ _ _ _ _ Hatt Hatt').
    unfold excluded.
    destruct Hex as [->%agent_dir_match_spec | ->%includes_spec];
      [reflexivity | apply orb_true_r].
  - intros h ports e Hports He. destruct (isLinux h) eqn:Hlinux.
    + destruct (proj1 (findCandidatePorts_Ok _ _ Hlinux) Hports)
        as (tcp & tcp6 & connections & sockets & H4 & H6 & Hc & Hs & _).
      apply (elem_of_result h tcp tcp6 connections sockets ports Hlinux H4 H6 Hc Hs Hports)
        in He as (c & p & _ & _ & Hex & ->).
      simpl. apply orb_false_elim in Hex as [Hdir Hmain].
      rewrite <- agent_dir_match_spec, <- includes_spec, Hdir, Hmain.
      split; discriminate.
    + rewrite findCandidatePorts_not_linux in Hports by exact Hlinux. injection Hports as <-.
      by apply not_elem_of_nil in He.
  - vm_compute. reflexivity.
Qed.

Lemma self_exclusion_witness :
  Num 8080 ∉ candidate_port <$> ([] : list candidate).
Proof.
  apply (proj1 self_exclusion scenario_B tcp_8080 tcp6_empty
           [connection_12345] [owner_42] [] connection_12345 agent);
    try (vm_compute; reflexivity).
  - apply list_elem_of_singleton. reflexivity.
  - exists owner_42. split; vm_compute; reflexivity.
  - right. apply includes_spec. vm_compute. reflexivity.
Defined.

(** ** C5: the platform gate *)

(** C5. On a platform other than Linux the discovery returns the empty list
    without raising, whatever the rest of the host looks like: unreadable
    tables, a socket enumeration that cannot be parsed, any inventory.  No
    file is read and no text is parsed. *)
Theorem platform_gate (h : host) :
  isLinux h = false -> findCandidatePorts h = Ok [].
Proof. apply findCandidatePorts_not_linux. Qed.

Lemma platform_gate_witness :
  isLinux scenario_not_linux = false /\
  proc_net_tcp scenario_not_linux = None /\
  findCandidatePorts scenario_not_linux = Ok [].
Proof.
  split; [reflexivity|]. split; [reflexivity|].
  apply (platform_gate scenario_not_linux). reflexivity.
Defined.

(** ** C6: lines of the socket enumeration *)

(** On an enumeration all of whose lines show the shape
    [/proc/<pid>/fd/<fd> -> socket:[<inode>]], the resolver returns one
    ownership record per line, in the order of the lines. *)
Lemma getSockets_all_match (stdout : string) :
  all_lines_shaped stdout ->
  exists owners,
    getSockets stdout = Ok owners /\
    Forall2 (fun line o =>
               exists pid inode, fd_shape line pid inode /\
                 socket_re_exec line = Some (pid, inode) /\
                 o = {| owner_pid := parseInt (Some pid) 10;
                        owner_socket := parseInt (Some inode) 10 |})
            (lines_of stdout) owners.
Proof.
  intros Hall%all_lines_shaped_match.
  destruct (getSockets_returns _ Hall) as [owners Howners].
  exists owners. split; [exact Howners|].
  apply map_throwing_Ok in Howners.
  eapply Forall2_impl; [exact Howners|]. intros line o. unfold to_owner.
  destruct (socket_re_exec line) as [[g1 g2]|] eqn:Hm; [|discriminate].
  intros [= <-]. exists g1, g2. split; [by apply socket_re_exec_sound | auto].
Qed.

(** A line of another shape, wherever it stands, makes the whole call
    throw. *)
Lemma getSockets_stray_line stdout line :
  line ∈ lines_of stdout -> (~ exists pid inode, fd_shape line pid inode) ->
  ~ returns (getSockets stdout).
Proof.
  intros Hin Hshape [owners Howners]. apply map_throwing_Ok in Howners.
  assert (socket_re_exec line = None) as Hnone.
  { destruct (socket_re_exec line) eqn:Hm; [|reflexivity].
    destruct Hshape. apply socket_re_exec_shape. rewrite Hm. eauto. }
  apply list_elem_of_lookup in Hin as [i Hi].
  destruct (Forall2_lookup_l _ _ _ _ _ Howners Hi) as (o & _ & Ho).
  unfold to_owner in Ho. rewrite Hnone in Ho. discriminate.
Qed.

(** C6. A line of another shape is not dropped: it fails the whole batch.
    The enumeration has the line of a socket of pid 42, then a line that
    [grep socket:] keeps for the name of an open file and that does not show
    the shape.  Alone, the first line gives its ownership record; with the
    second line [exec] gives [null], [match[1]] throws a TypeError and the
    resolver returns no record at all. *)
Theorem stray_line_fails_the_batch :
  lines_of listing_with_stray_line = [fd_line "42" "3" "12345"; stray_line] /\
  fd_shape (fd_line "42" "3" "12345") "42" "12345" /\
  getSockets (unlines [fd_line "42" "3" "12345"]) = Ok [owner_42] /\
  occurs_in "socket:" stray_line /\
  (~ exists pid inode, fd_shape stray_line pid inode) /\
  socket_re_exec stray_line = None /\
  getSockets listing_with_stray_line = Throw TypeError /\
  ~ returns (getSockets listing_with_stray_line).
Proof.
  assert (getSockets listing_with_stray_line = Throw TypeError) as H
    by (vm_compute; reflexivity).
  split; [vm_compute; reflexivity|]. split; [|split; [|split; [|split; [|split; [|split]]]]].
  - apply socket_re_exec_sound. vm_compute. reflexivity.
  - vm_compute. reflexivity.
  - apply includes_spec. vm_compute. reflexivity.
  - intros [g Hg]%socket_re_exec_shape. vm_compute in Hg. discriminate.
  - vm_compute. reflexivity.
  - exact H.
  - intros [owners Howners]. rewrite H in Howners. discriminate.
Qed.

(** ** C7: one row per line *)

(** C7, as stated, fails: rows whose field count differs from the header's
    are not excluded.  A row as the kernel prints it has 17 fields under a
    header of 12 names, 10 after the removal of the two noisy ones, and it is
    kept, with its consumed columns, the surplus fields under their index; a
    truncated row of one field is kept too, without the consumed columns. *)
Lemma rows_of_other_field_count_are_kept :
  length (split_ws (trim tcp_header)) = 12%nat /\
  length (header_names tcp_header) = 10%nat /\
  length (split_ws (trim (tcp_line "0" "0100007F:1F90" "0A" "12345"))) = 17%nat /\
  length (split_ws (trim "junk")) = 1%nat /\
  exists full short,
    loadConnectionTable table_with_short_row = Ok [full; short] /\
    full !! "local_address" = Some "0100007F:1F90" /\
    full !! "st" = Some "0A" /\
    full !! "inode" = Some "12345" /\
    full !! "16" = Some "0" /\
    short = {[ "sl" := "junk" ]}.
Proof.
  do 4 (split; [vm_compute; reflexivity|]).
  destruct (loadConnectionTable_total table_with_short_row) as (header & lines & Hl & ->).
  vm_compute in Hl. injection Hl as <- <-.
  eexists _, _. split; [reflexivity|].
  repeat split; vm_compute; reflexivity.
Qed.

(** C7, amended. For every connection-table text the parser returns, without
    throwing, exactly one record per line after the header, in the order of
    the lines, each computed from its own line and the header alone; a record
    has every consumed column that the header names, provided its line has at
    least as many fields as the header has names left.  Rows of another field
    count are kept like the others. *)
Theorem one_row_per_line (stdout : string) :
  exists header lines,
    lines_of stdout = header :: lines /\
    loadConnectionTable stdout = Ok (map (parse_row (header_names header)) lines) /\
    forall line k,
      line ∈ lines -> k ∈ consumed_columns -> k ∈ header_names header ->
      (length (header_names header) <= length (split_ws (trim line)))%nat ->
      is_Some (parse_row (header_names header) line !! k).
Proof.
  destruct (loadConnectionTable_total stdout) as (header & lines & Hl & Ht).
  exists header, lines. split; [exact Hl|]. split; [exact Ht|].
  intros line k _ Hk [j Hj]%list_elem_of_lookup Hlen.
  apply (reduce_row_present _ _ _ _ _ j); [by apply consumed_columns_named | lia | exact Hj |].
  apply lookup_lt_Some in Hj. lia.
Qed.

Lemma one_row_per_line_witness :
  exists rows, loadConnectionTable table_with_short_row = Ok rows /\ length rows = 2%nat.
Proof.
  destruct (one_row_per_line table_with_short_row) as (header & lines & Hl & Ht & _).
  vm_compute in Hl. injection Hl as <- <-.
  eexists. split; [exact Ht | reflexivity].
Defined.

(** ** C8: scenario A *)

(** C8. Scenario A: the listening row with local address [0100007F:1F90] and
    inode 12345, the descriptor line giving inode 12345 to pid 42 and the
    inventory entry of pid 42 yield exactly the candidate of port 8080, the
    value of [1F90] read in radix 16, with the command line as detail. *)
Theorem scenario_A_result :
  loadListeningPorts [tcp_8080; tcp6_empty] =
    Ok [{| socket := Num 12345; ip := "0100007F"; port := Num 8080 |}] /\
  getSockets (procSockets scenario_A) =
    Ok [{| owner_pid := Num 42; owner_socket := Num 12345 |}] /\
  parseInt (Some "1F90") 16 = Num 8080 /\
  findCandidatePorts scenario_A =
    Ok [{| candidate_port := Num 8080; detail := "/usr/bin/myserver --port 8080" |}].
Proof. repeat split; vm_compute; reflexivity. Qed.

(** ** C9: alignment by the header *)

(** C9. Whatever the order of the columns in the header, the value that a row
    stores under a consumed column [k] is the field at the position that [k]
    has in the header once [rx_queue] and [tm->when] are removed from it (the
    last such position, should the header repeat the name). *)
Theorem header_driven_alignment (stdout header : string) (lines : list string)
    (n i : nat) (line k v : string) :
  lines_of stdout = header :: lines ->
  lines !! n = Some line ->
  k ∈ consumed_columns ->
  header_names header !! i = Some k ->
  k ∉ drop (S i) (header_names header) ->
  split_ws (trim line) !! i = Some v ->
  header_names header =
    filter (fun name => name <> "rx_queue" /\ name <> "tm->when") (split_ws (trim header)) /\
  exists rows row,
    loadConnectionTable stdout = Ok rows /\ rows !! n = Some row /\ row !! k = Some v.
Proof.
  intros Hl Hn Hk Hi Hlast Hv. split; [reflexivity|].
  exists (map (parse_row (header_names header)) lines), (parse_row (header_names header) line).
  split; [|split].
  - unfold loadConnectionTable. rewrite Hl. reflexivity.
  - change (map ?f lines) with (f <$> lines). rewrite list_lookup_fmap, Hn. reflexivity.
  - apply (reduce_row_aligned _ _ _ _ _ i);
      [by apply consumed_columns_named | lia | exact Hi | | by rewrite Nat.sub_0_r].
    intros j Hj Hjk. apply Hlast. apply (lookup_after_drop _ _ j); [lia | exact Hjk].
Qed.

Lemma header_driven_alignment_witness :
  header_names permuted_header = ["inode"; "st"; "local_address"] /\
  exists rows row,
    loadConnectionTable permuted_table = Ok rows /\ rows !! 0%nat = Some row /\
    row !! "local_address" = Some "0100007F:1F90".
Proof.
  split; [reflexivity|].
  apply (header_driven_alignment permuted_table permuted_header [permuted_line]
           0 2 permuted_line "local_address" "0100007F:1F90");
    compute_done.
Defined.

(** ** C10: the last record of a port shadows the others *)

(** C10. [loadListeningPorts] collapses the listening records by port before
    any socket owner or process is looked at: it keeps, for each port, the
    last record in the order of the IPv4 table followed by the IPv6 table.
    Hence, when the last record of a port has no owner, or an excluded command
    line, the port is absent from the result, even if an earlier record of the
    same port is attributable and not excluded, as in the shadowing scenario,
    whose result is empty. *)
Theorem last_record_shadows :
  (forall tcp tcp6 r4 r6,
     listening_records [tcp] = Ok r4 -> listening_records [tcp6] = Ok r6 ->
     listening_records [tcp; tcp6] = Ok (r4 ++ r6)) /\
  (forall stdouts connections,
     loadListeningPorts stdouts = Ok connections ->
     exists records,
       listening_records stdouts = Ok records /\
       NoDup (port <$> connections) /\
       forall c, c ∈ connections <-> last_for_port records c) /\
  (forall h tcp tcp6 records sockets ports c,
     isLinux h = true ->
     proc_net_tcp h = Some tcp -> proc_net_tcp6 h = Some tcp6 ->
     listening_records [tcp; tcp6] = Ok records ->
     getSockets (procSockets h) = Ok sockets ->
     findCandidatePorts h = Ok ports ->
     last_for_port records c ->
     (forall p, attributed (socketMap_of sockets) (processMap_of (processes h)) c p ->
                excluded (cmd p) = true) ->
     port c ∉ candidate_port <$> ports) /\
  findCandidatePorts scenario_shadow = Ok [].
Proof.
  split; [|split; [|split]].
  - apply listening_records_concat.
  - intros stdouts connections (records & Hr & ->)%loadListeningPorts_Ok.
    exists records. split; [exact Hr|]. split; [apply NoDup_port_values|].
    intros c. apply elem_of_port_values.
  - intros h tcp tcp6 records sockets ports c Hlinux H4 H6 Hr Hs Hports Hlast Hdrop.
    eapply (dropped_connection h tcp tcp6 _ sockets ports Hlinux H4 H6); eauto.
    + apply loadListeningPorts_Ok. eauto.
    + apply elem_of_port_values, Hlast.
  - vm_compute. reflexivity.
Qed.

Lemma last_record_shadows_witness :
  findCandidatePorts scenario_A =
    Ok [{| candidate_port := Num 8080; detail := cmd myserver |}] /\
  Num 8080 ∉ candidate_port <$> ([] : list candidate).
Proof.
  split; [vm_compute; reflexivity|].
  apply (proj1 (proj2 (proj2 last_record_shadows)) scenario_shadow tcp_8080 tcp6_8080
           [connection_12345; connection_23456] [owner_42] [] connection_23456);
    try (vm_compute; reflexivity).
  - exists [connection_12345], []. split; [reflexivity | constructor].
  - intros p (s & Hs & _). vm_compute in Hs. discriminate.
Defined.

(** * Further properties *)

(** ** Blank and one-line texts *)

Lemma trimStart_blank s : blank s -> trimStart s = "".
Proof.
  unfold blank. induction s as [|c s IH]; simpl; [reflexivity|].
  intros [-> Hs]%andb_prop. apply IH, Hs.
Qed.

Lemma lines_of_blank stdout : blank stdout -> lines_of stdout = [""].
Proof. intros H. unfold lines_of, trim. rewrite trimStart_blank by exact H. reflexivity. Qed.

Lemma split_without sep s : without sep s -> split sep s = [s].
Proof.
  unfold without. induction s as [|c s IH]; simpl; [reflexivity|].
  intros [Hc Hs]%andb_prop. apply negb_true_iff in Hc. rewrite Hc, IH by exact Hs.
  reflexivity.
Qed.

Lemma split_at_first sep a b :
  without sep a -> split sep (a +:+ String sep b) = a :: split sep b.
Proof.
  unfold without. induction a as [|c a IH]; simpl.
  - intros _. by rewrite Ascii.eqb_refl.
  - intros [Hc Ha]%andb_prop. apply negb_true_iff in Hc.
    rewrite Hc. change (String.app a (String sep b)) with (a +:+ String sep b).
    rewrite IH by exact Ha. reflexivity.
Qed.

Lemma loadConnectionTable_rows stdout : loadConnectionTable stdout = Ok (table_rows stdout).
Proof.
  unfold table_rows. destruct (loadConnectionTable_total stdout) as (header & lines & _ & ->).
  reflexivity.
Qed.

Lemma map_throwing_Throw {A B} (f : A -> result B) (l : list A) e :
  map_throwing f l = Throw e -> exists x, x ∈ l /\ f x = Throw e.
Proof.
  induction l as [|x l IH]; simpl; [discriminate|].
  destruct (f x) as [y|e'] eqn:Hx; simpl.
  - destruct (map_throwing f l) as [ys|e'] eqn:Hl; simpl; [discriminate|].
    intros [= ->]. destruct (IH eq_refl) as (x' & Hin & Hx').
    exists x'. rewrite elem_of_cons. auto.
  - intros [= ->]. exists x. rewrite elem_of_cons. auto.
Qed.

Lemma map_throwing_returns_iff {A B} (f : A -> result B) (l : list A) :
  returns (map_throwing f l) <-> Forall (fun x => returns (f x)) l.
Proof.
  split; [|apply map_throwing_returns].
  intros [r Hr]. apply map_throwing_Ok in Hr.
  apply Forall_forall. intros x [i Hi]%list_elem_of_lookup.
  destruct (Forall2_lookup_l _ _ _ _ _ Hr Hi) as (y & _ & Hy). exists y. exact Hy.
Qed.

(** ** X1: tables without rows *)

(** X1. A connection table of one line only, that is a header without rows
    or no text at all, has no rows, and two such tables give no listening
    connection: nothing is thrown for the lack of rows. *)
Theorem tables_without_rows (tcp tcp6 : string) :
  without "010" (trim tcp) -> without "010" (trim tcp6) ->
  loadConnectionTable tcp = Ok [] /\ loadConnectionTable tcp6 = Ok [] /\
  loadListeningPorts [tcp; tcp6] = Ok [].
Proof.
  intros H4 H6.
  assert (forall stdout, without "010" (trim stdout) -> loadConnectionTable stdout = Ok [])
    as Hempty.
  { intros stdout H. unfold loadConnectionTable, lines_of.
    rewrite split_without by exact H. reflexivity. }
  split; [by apply Hempty|]. split; [by apply Hempty|].
  unfold loadListeningPorts, listening_records. simpl.
  rewrite !Hempty by assumption. reflexivity.
Qed.

Lemma tables_without_rows_witness :
  loadConnectionTable (unlines [tcp_header]) = Ok [] /\ loadConnectionTable "" = Ok [] /\
  loadListeningPorts [unlines [tcp_header]; ""] = Ok [].
Proof. apply (tables_without_rows (unlines [tcp_header]) ""); reflexivity. Defined.

(** ** X2: a blank socket enumeration *)

(** X2. [getSockets] returns exactly when every line of the enumeration has
    the descriptor shape; on an enumeration of white space only, as when
    [grep] finds nothing, its single line is the empty one and it throws a
    TypeError. *)
Theorem getSockets_returns_iff (stdout : string) :
  (returns (getSockets stdout) <-> all_lines_shaped stdout) /\
  (blank stdout -> getSockets stdout = Throw TypeError).
Proof.
  split.
  - rewrite all_lines_shaped_match. unfold getSockets, all_lines_match.
    rewrite map_throwing_returns_iff. apply Forall_iff. intros line.
    unfold to_owner. destruct (socket_re_exec line) as [[g1 g2]|]; split.
    + eauto.
    + intros _. eexists. reflexivity.
    + intros [o Ho]. discriminate.
    + intros [g Hg]. discriminate.
  - intros Hblank. unfold getSockets. rewrite lines_of_blank by exact Hblank. reflexivity.
Qed.

Lemma getSockets_returns_iff_witness :
  getSockets (" " +:+ LF) = Throw TypeError.
Proof. apply (proj2 (getSockets_returns_iff (" " +:+ LF))). reflexivity. Defined.

(** ** X3 and X4: what a row stores *)

Lemma index_key_decode n :
  option_map Nat.of_uint (NilZero.uint_of_string (index_key n)) = Some n.
Proof.
  unfold index_key. pose proof (DecimalNat.Unsigned.of_to n) as Hn.
  destruct (Nat.to_uint n) as [| | | | | | | | | |] eqn:Hd;
    [rewrite NilZero.usu_nil; simpl in *; by rewrite <- Hn
    |rewrite NilZero.usu by discriminate; simpl; by rewrite Hn ..].
Qed.

Lemma index_key_inj n m : index_key n = index_key m -> n = m.
Proof.
  intros H. pose proof (index_key_decode n) as Hn. rewrite H, index_key_decode in Hn.
  by injection Hn.
Qed.

Lemma index_key_not_proto n : index_key n <> "__proto__".
Proof.
  unfold index_key, NilZero.string_of_uint. destruct (Nat.to_uint n); discriminate.
Qed.

Lemma reduce_row_skips names i values obj k :
  (forall j, (i <= j)%nat -> column_key names j <> k) ->
  reduce_row names i values obj !! k = obj !! k.
Proof.
  revert i obj. induction values as [|v vs IH]; intros i obj Hkeys; simpl.
  - reflexivity.
  - rewrite IH by (intros j Hj; apply Hkeys; lia).
    apply set_property_lookup_ne, Hkeys. lia.
Qed.

Lemma column_key_beyond names j : (length names <= j)%nat -> column_key names j = index_key j.
Proof. intros Hj. unfold column_key. by rewrite lookup_ge_None_2. Qed.

Lemma reduce_row_surplus names i0 values obj i v :
  (i0 <= i)%nat -> (length names <= i)%nat -> values !! (i - i0)%nat = Some v ->
  reduce_row names i0 values obj !! index_key i = Some v.
Proof.
  revert i0 obj. induction values as [|v0 vs IH]; intros i0 obj Hi0 Hlen Hv; [discriminate|].
  simpl. destruct (decide (i0 = i)) as [->|Hne].
  - rewrite Nat.sub_diag in Hv. injection Hv as ->.
    rewrite reduce_row_skips.
    + rewrite column_key_beyond by exact Hlen.
      apply set_property_lookup_eq, index_key_not_proto.
    + intros j Hj. rewrite column_key_beyond by lia.
      intros Heq%index_key_inj. lia.
  - apply IH; [lia | exact Hlen |].
    replace (i - i0)%nat with (S (i - S i0)) in Hv by lia. exact Hv.
Qed.

(** Every property of a row is a field of the line, under the key of the
    position of the field. *)
Lemma reduce_row_origin names i0 values obj k v :
  reduce_row names i0 values obj !! k = Some v ->
  obj !! k = Some v \/
  exists j, (i0 <= j)%nat /\ values !! (j - i0)%nat = Some v /\
    column_key names j = k /\ k <> "__proto__".
Proof.
  revert i0 obj. induction values as [|v0 vs IH]; intros i0 obj; simpl; [auto|].
  intros [Hobj|(j & Hj & Hv & Hk & Hp)]%IH.
  - unfold set_property in Hobj. case_decide as Hproto; [auto|].
    destruct (decide (column_key names i0 = k)) as [<-|Hne].
    + rewrite lookup_insert_eq in Hobj. injection Hobj as ->. right.
      exists i0. rewrite Nat.sub_diag. auto.
    + rewrite lookup_insert_ne in Hobj by exact Hne. auto.
  - right. exists j. split; [lia|].
    replace (j - i0)%nat with (S (j - S i0)) by lia. auto.
Qed.

Lemma header_names_kept header name :
  name ∈ header_names header ->
  name <> "rx_queue" /\ name <> "tm->when" /\ name ∈ split_ws (trim header).
Proof. unfold header_names. rewrite list_elem_of_filter. tauto. Qed.

Lemma column_key_cases names j :
  (exists name, names !! j = Some name /\ name <> "" /\ column_key names j = name) \/
  column_key names j = index_key j.
Proof.
  unfold column_key. destruct (names !! j) as [name|]; [|auto].
  case_decide; [auto|]. left. eauto.
Qed.

Lemma index_key_not_queue j : index_key j <> "rx_queue" /\ index_key j <> "tm->when".
Proof.
  unfold index_key, NilZero.string_of_uint. split; destruct (Nat.to_uint j); discriminate.
Qed.

(** X3. A field beyond the names of the header is stored under its position:
    the field at position [i], counted from 0, of a line is the value of the
    property [String(i)] of the row of this line, as soon as the header,
    without [rx_queue] and [tm->when], has no name at this position. *)
Theorem surplus_fields_by_index (stdout header : string) (lines : list string)
    (n i : nat) (line v : string) :
  lines_of stdout = header :: lines ->
  lines !! n = Some line ->
  (length (header_names header) <= i)%nat ->
  split_ws (trim line) !! i = Some v ->
  exists rows row,
    loadConnectionTable stdout = Ok rows /\ rows !! n = Some row /\
    row !! index_key i = Some v.
Proof.
  intros Hl Hn Hlen Hv.
  exists (map (parse_row (header_names header)) lines), (parse_row (header_names header) line).
  split; [|split].
  - unfold loadConnectionTable. rewrite Hl. reflexivity.
  - change (map ?f lines) with (f <$> lines). rewrite list_lookup_fmap, Hn. reflexivity.
  - apply reduce_row_surplus; [lia | exact Hlen | by rewrite Nat.sub_0_r].
Qed.

Lemma surplus_fields_by_index_witness :
  exists rows row,
    loadConnectionTable tcp_8080 = Ok rows /\ rows !! 0%nat = Some row /\
    row !! "10" = Some "1".
Proof.
  apply (surplus_fields_by_index tcp_8080 (trimStart tcp_header)
           [tcp_line "0" "0100007F:1F90" "0A" "12345"] 0 10
           (tcp_line "0" "0100007F:1F90" "0A" "12345") "1");
    compute_done.
Defined.

(** X4. Every property of a row is a field of its line, stored under the
    name that the header has at the position of the field, or under the
    position itself; no row has a property [rx_queue], [tm->when] or
    [__proto__]. *)
Theorem row_properties_are_fields (stdout : string) (rows : list (gmap string string))
    (row : gmap string string) (n : nat) (k v : string) :
  loadConnectionTable stdout = Ok rows ->
  rows !! n = Some row ->
  row !! k = Some v ->
  exists header lines line j,
    lines_of stdout = header :: lines /\ lines !! n = Some line /\
    split_ws (trim line) !! j = Some v /\
    (k = index_key j \/ header_names header !! j = Some k) /\
    k <> "rx_queue" /\ k <> "tm->when" /\ k <> "__proto__".
Proof.
  destruct (loadConnectionTable_total stdout) as (header & lines & Hl & ->).
  intros [= <-] Hn Hk. change (map ?f lines) with (f <$> lines) in Hn.
  apply list_lookup_fmap_Some in Hn as (line & -> & Hn).
  exists header, lines, line.
  apply reduce_row_origin in Hk as [Hk|(j & _ & Hv & Hkey & Hproto)];
    [by rewrite lookup_empty in Hk|].
  rewrite Nat.sub_0_r in Hv. exists j.
  destruct (column_key_cases (header_names header) j) as [(name & Hj & _ & Hname)|Hidx].
  - assert (name = k) as -> by congruence.
    assert (k ∈ header_names header) as Hin by (apply list_elem_of_lookup; eauto).
    apply header_names_kept in Hin as (? & ? & _). auto 10.
  - assert (k = index_key j) as -> by congruence.
    destruct (index_key_not_queue j). auto 10.
Qed.

Lemma row_properties_are_fields_witness :
  exists header lines line j,
    lines_of permuted_table = header :: lines /\ lines !! 0%nat = Some line /\
    split_ws (trim line) !! j = Some "0A" /\
    ("st" = index_key j \/ header_names header !! j = Some "st") /\
    "st" <> "rx_queue" /\ "st" <> "tm->when" /\ "st" <> "__proto__".
Proof.
  apply (row_properties_are_fields permuted_table
           [parse_row (header_names permuted_header) permuted_line]
           (parse_row (header_names permuted_header) permuted_line) 0 "st" "0A");
    vm_compute; reflexivity.
Defined.

(** ** X5: when loadListeningPorts returns *)

Lemma to_connection_returns row :
  returns (to_connection row) <-> is_Some (row !! "local_address").
Proof.
  unfold to_connection. destruct (row !! "local_address") as [a|]; split.
  - eauto.
  - intros _. eexists. reflexivity.
  - intros [c Hc]. discriminate.
  - intros [a Ha]. discriminate.
Qed.

Lemma map_throwing_loadConnectionTable stdouts :
  map_throwing loadConnectionTable stdouts = Ok (map table_rows stdouts).
Proof.
  induction stdouts as [|stdout stdouts IH]; simpl; [reflexivity|].
  rewrite loadConnectionTable_rows. simpl. rewrite IH. reflexivity.
Qed.

Lemma listening_rows_addressed_rows stdout :
  listening_rows_addressed stdout <->
  Forall (fun row : gmap string string =>
            row !! "st" = Some "0A" -> is_Some (row !! "local_address")) (table_rows stdout).
Proof. unfold listening_rows_addressed. rewrite loadConnectionTable_rows. reflexivity. Qed.

Lemma elem_of_concat {A} (x : A) (ls : list (list A)) :
  x ∈ concat ls <-> exists l, x ∈ l /\ l ∈ ls.
Proof.
  induction ls as [|l ls IH]; simpl.
  - split; [intros []%not_elem_of_nil | intros (l & _ & []%not_elem_of_nil)].
  - rewrite elem_of_app, IH. split.
    + intros [Hx|(l' & Hx & Hl')]; [exists l | exists l']; rewrite elem_of_cons; auto.
    + intros (l' & Hx & [->|Hl']%elem_of_cons); [auto|]. right. eauto.
Qed.

Lemma listening_records_returns_iff stdouts :
  returns (listening_records stdouts) <-> Forall listening_rows_addressed stdouts.
Proof.
  unfold listening_records. rewrite map_throwing_loadConnectionTable. simpl.
  rewrite map_throwing_returns_iff, !Forall_forall. split.
  - intros H stdout Hstdout. apply listening_rows_addressed_rows, Forall_forall.
    intros row Hrow Hst. apply to_connection_returns, H, list_elem_of_filter.
    split; [exact Hst|]. apply elem_of_concat. exists (table_rows stdout).
    split; [exact Hrow|]. apply (list_elem_of_fmap_2 table_rows), Hstdout.
  - intros H row [Hst (rows & Hrow & (stdout & -> & Hstdout)%list_elem_of_fmap)%elem_of_concat]%list_elem_of_filter.
    apply to_connection_returns.
    specialize (H stdout Hstdout). apply listening_rows_addressed_rows in H.
    rewrite Forall_forall in H. by apply H.
Qed.

(** X5. [loadListeningPorts] returns exactly when every row in listening
    state, of every table, has a [local_address] column: rows in another
    state are never looked at, whatever they lack, and a table without a
    listening row cannot make it throw. *)
Theorem loadListeningPorts_returns_iff (stdouts : list string) :
  returns (loadListeningPorts stdouts) <-> Forall listening_rows_addressed stdouts.
Proof.
  rewrite <- listening_records_returns_iff. unfold loadListeningPorts. split.
  - intros [connections (records & Hr & _)%bind_Ok]. exists records. exact Hr.
  - intros [records Hr]. rewrite Hr. eexists. reflexivity.
Qed.

Lemma loadListeningPorts_returns_iff_witness :
  returns (loadListeningPorts [tcp_8080; tcp6_8080]).
Proof. apply (proj2 (loadListeningPorts_returns_iff [tcp_8080; tcp6_8080])). compute_done. Defined.

(** ** X6 and X7: the order of the connections and of the result *)

Lemma Map_set_fresh {V} (m : list (number * V)) k v :
  k ∉ m.*1 -> Map_set m k v = m ++ [(k, v)].
Proof.
  induction m as [|[k' v'] m IH]; intros Hk; [reflexivity|].
  rewrite fmap_cons, not_elem_of_cons in Hk. destruct Hk as [Hne Hk]. simpl in Hne.
  cbn [Map_set]. rewrite decide_False by congruence. by rewrite IH.
Qed.

Lemma Map_new_NoDup_id {V} (l : list (number * V)) : NoDup l.*1 -> Map_new l = l.
Proof.
  induction l as [|e l IH] using rev_ind; intros Hl; [reflexivity|].
  rewrite fmap_app in Hl. apply NoDup_app in Hl as (Hl & Hfresh & _).
  rewrite Map_new_snoc, IH by exact Hl.
  rewrite Map_set_fresh; [by destruct e|].
  intros He. apply (Hfresh _ He). simpl. apply list_elem_of_singleton. reflexivity.
Qed.




Lemma port_entries_keys (records : list connection) :
  (map (fun p => (port p, p)) records).*1 = port <$> records.
Proof. induction records as [|c l IH]; [reflexivity|]. cbn. by f_equal. Qed.

Lemma port_entries_values (records : list connection) :
  Map_values (map (fun p => (port p, p)) records) = records.
Proof. unfold Map_values. induction records as [|c l IH]; [reflexivity|]. cbn. by f_equal. Qed.

(** X6. When no two listening rows have the same port, [loadListeningPorts]
    returns one connection per listening row, in the order of the rows, the
    rows of the first table before those of the second. *)
Theorem distinct_ports_all_kept (stdouts : list string) (records : list connection) :
  listening_records stdouts = Ok records ->
  NoDup (port <$> records) ->
  loadListeningPorts stdouts = Ok records.
Proof.
  intros Hr Hnd. unfold loadListeningPorts. rewrite Hr. simpl.
  rewrite Map_new_NoDup_id by (by rewrite port_entries_keys).
  by rewrite port_entries_values.
Qed.

Lemma distinct_ports_all_kept_witness :
  loadListeningPorts [tcp_two_listeners; tcp6_9229] =
  Ok [{| socket := Num 12345; ip := "0100007F"; port := Num 8080 |};
      {| socket := Num 12346; ip := "00000000"; port := Num 3000 |};
      {| socket := Num 23457; ip := "00000000000000000000000000000000"; port := Num 9229 |}].
Proof.
  apply (distinct_ports_all_kept [tcp_two_listeners; tcp6_9229]).
  - vm_compute. reflexivity.
  - compute_done.
Defined.



(** ** X8 and X9: the two dictionaries and the join *)

Section IndexBy.
Context {K V : Type} `{Countable K} (key : V -> K).

Let index_by (m0 : gmap K V) (l : list V) : gmap K V :=
  foldl (fun m x => <[key x := x]> m) m0 l.

Lemma index_by_skips l m0 k :
  (forall x, x ∈ l -> key x <> k) -> index_by m0 l !! k = m0 !! k.
Proof using Type.
  revert m0. induction l as [|x l IH]; intros m0 Hl; [reflexivity|].
  simpl. rewrite IH by (intros y Hy; apply Hl, elem_of_cons; auto).
  apply lookup_insert_ne, Hl, elem_of_cons. auto.
Qed.

Lemma index_by_origin l m0 k v :
  index_by m0 l !! k = Some v -> (v ∈ l /\ key v = k) \/ m0 !! k = Some v.
Proof using Type.
  revert m0. induction l as [|x l IH]; intros m0; simpl; [auto|].
  intros [[Hv Hk]|Hm]%IH.
  - left. rewrite elem_of_cons. auto.
  - destruct (decide (key x = k)) as [Hx|Hx].
    + rewrite <- Hx, lookup_insert_eq in Hm. injection Hm as ->.
      left. rewrite elem_of_cons. auto.
    + rewrite lookup_insert_ne in Hm by exact Hx. auto.
Qed.

Lemma index_by_last pre v post m0 :
  Forall (fun x => key x <> key v) post ->
  index_by m0 (pre ++ v :: post) !! key v = Some v.
Proof using Type.
  intros Hpost. unfold index_by. rewrite foldl_app. simpl.
  fold (index_by (<[key v := v]> (foldl (fun m x => <[key x := x]> m) m0 pre)) post).
  rewrite index_by_skips by (by apply Forall_forall).
  apply lookup_insert_eq.
Qed.
End IndexBy.

Lemma split_at_last {A} (P : A -> Prop) `{forall x, Decision (P x)} (l : list A) (x : A) :
  x ∈ l -> P x ->
  exists pre y post, l = pre ++ y :: post /\ P y /\ Forall (fun z => ~ P z) post.
Proof.
  induction l as [|z l IH] using rev_ind; intros Hin HP.
  - by apply not_elem_of_nil in Hin.
  - destruct (decide (P z)) as [Hz|Hz].
    + exists l, z, []. auto.
    + apply elem_of_app in Hin as [Hin|Hin%list_elem_of_singleton]; [|congruence].
      destruct (IH Hin HP) as (pre & y & post & -> & Hy & Hpost).
      exists pre, y, (post ++ [z]). split; [by rewrite <- app_assoc|].
      split; [exact Hy|]. apply Forall_app. auto.
Qed.

(** X8. Each dictionary keeps, for a key, the last entry of its array: the
    owner of an inode is the one of the last descriptor line showing this
    inode, the process of a pid the last inventory entry of this pid; a key
    is absent exactly when no entry of the array has it. *)
Theorem dictionaries_keep_the_last_entry :
  (forall pre s post,
     Forall (fun s' => owner_socket s' <> owner_socket s) post ->
     socketMap_of (pre ++ s :: post) !! owner_socket s = Some s) /\
  (forall sockets k,
     socketMap_of sockets !! k = None <-> forall s, s ∈ sockets -> owner_socket s <> k) /\
  (forall pre p post,
     Forall (fun p' => pid p' <> pid p) post ->
     processMap_of (pre ++ p :: post) !! Num (pid p) = Some p) /\
  (forall processes k,
     processMap_of processes !! k = None <-> forall p, p ∈ processes -> Num (pid p) <> k).
Proof.
  split; [|split; [|split]].
  - intros pre s post Hpost. by apply (index_by_last owner_socket).
  - intros sockets k. split.
    + intros Hnone s Hs Hk.
      destruct (split_at_last (fun s' => owner_socket s' = k) sockets s Hs Hk)
        as (pre & s' & post & -> & Hs' & Hpost).
      unfold socketMap_of in Hnone.
      rewrite <- Hs', (index_by_last owner_socket) in Hnone; [discriminate|].
      eapply Forall_impl; [exact Hpost|]. simpl. congruence.
    + intros Hall. unfold socketMap_of.
      rewrite (index_by_skips owner_socket) by exact Hall. apply lookup_empty.
  - intros pre p post Hpost. apply (index_by_last (fun p => Num (pid p))).
    eapply Forall_impl; [exact Hpost|]. simpl. congruence.
  - intros processes k. split.
    + intros Hnone p Hp Hk.
      destruct (split_at_last (fun p' => Num (pid p') = k) processes p Hp Hk)
        as (pre & p' & post & -> & Hp' & Hpost).
      unfold processMap_of in Hnone.
      rewrite <- Hp', (index_by_last (fun p => Num (pid p))) in Hnone; [discriminate|].
      eapply Forall_impl; [exact Hpost|]. simpl. congruence.
    + intros Hall. unfold processMap_of.
      rewrite (index_by_skips (fun p => Num (pid p))) by exact Hall. apply lookup_empty.
Qed.

Lemma dictionaries_keep_the_last_entry_witness :
  socketMap_of [owner_42; {| owner_pid := Num 43; owner_socket := Num 12345 |}] !! Num 12345 =
  Some {| owner_pid := Num 43; owner_socket := Num 12345 |}.
Proof.
  apply (proj1 dictionaries_keep_the_last_entry [owner_42]
           {| owner_pid := Num 43; owner_socket := Num 12345 |} []).
  constructor.
Defined.

Lemma listening_records_origin stdouts records c :
  listening_records stdouts = Ok records -> c ∈ records ->
  exists stdout row,
    stdout ∈ stdouts /\ row ∈ table_rows stdout /\
    row !! "st" = Some "0A" /\ to_connection row = Ok c.
Proof.
  unfold listening_records. rewrite map_throwing_loadConnectionTable. simpl.
  intros Hr%map_throwing_Ok [i Hi]%list_elem_of_lookup.
  destruct (Forall2_lookup_r _ _ _ _ _ Hr Hi) as (row & Hrow & Hc).
  apply list_elem_of_lookup_2, list_elem_of_filter in Hrow as [Hst Hrow].
  apply elem_of_concat in Hrow as (rows & Hrow & (stdout & -> & Hstdout)%list_elem_of_fmap).
  exists stdout, row. auto.
Qed.

(** X9. Every entry of a result is the join of three inputs: a row in
    listening state of one of the two tables, a descriptor line whose inode
    is the one of the row, and an inventory entry whose pid is the one of the
    line and whose command line is not excluded; its port is the port of the
    row and its detail this command line.  The discovery invents neither a
    port nor a detail. *)
Theorem result_entries_are_joined (h : host) (tcp tcp6 : string) (sockets : list owner)
    (ports : list candidate) (e : candidate) :
  isLinux h = true ->
  proc_net_tcp h = Some tcp -> proc_net_tcp6 h = Some tcp6 ->
  getSockets (procSockets h) = Ok sockets ->
  findCandidatePorts h = Ok ports ->
  e ∈ ports ->
  exists stdout row c s p,
    stdout ∈ [tcp; tcp6] /\ row ∈ table_rows stdout /\
    row !! "st" = Some "0A" /\ to_connection row = Ok c /\
    s ∈ sockets /\ owner_socket s = socket c /\
    p ∈ processes h /\ Num (pid p) = owner_pid s /\
    excluded (cmd p) = false /\
    e = {| candidate_port := port c; detail := cmd p |}.
Proof.
  intros Hlinux H4 H6 Hs Hports He.
  destruct (proj1 (findCandidatePorts_Ok _ _ Hlinux) Hports)
    as (tcp' & tcp6' & connections & sockets' & H4' & H6' & Hc & Hs' & _).
  rewrite H4 in H4'. rewrite H6 in H6'. injection H4' as <-. injection H6' as <-.
  rewrite Hs in Hs'. injection Hs' as <-.
  destruct (proj1 (elem_of_result h tcp tcp6 connections sockets ports Hlinux H4 H6 Hc Hs
                     Hports e) He) as (c & p & Hin & (s & Hsock & Hproc) & Hex & Heq).
  apply loadListeningPorts_Ok in Hc as (records & Hr & Hconn). rewrite Hconn in Hin.
  apply elem_of_port_values in Hin as (pre & post & -> & _).
  destruct (listening_records_origin _ _ c Hr) as (stdout & row & Hstdout & Hrow & Hst & Hto).
  { apply elem_of_app. right. apply elem_of_cons. auto. }
  apply (index_by_origin owner_socket) in Hsock as [[Hsin Hskey]|Hempty];
    [|by rewrite lookup_empty in Hempty].
  apply (index_by_origin (fun p => Num (pid p))) in Hproc as [[Hpin Hpkey]|Hempty];
    [|by rewrite lookup_empty in Hempty].
  exists stdout, row, c, s, p. auto 10.
Qed.

Lemma result_entries_are_joined_witness :
  exists stdout row c s p,
    stdout ∈ [tcp_8080; tcp6_empty] /\ row ∈ table_rows stdout /\
    row !! "st" = Some "0A" /\ to_connection row = Ok c /\
    s ∈ [owner_42] /\ owner_socket s = socket c /\
    p ∈ processes scenario_A /\ Num (pid p) = owner_pid s /\
    excluded (cmd p) = false /\
    {| candidate_port := Num 8080; detail := cmd myserver |} =
      {| candidate_port := port c; detail := cmd p |}.
Proof.
  apply (result_entries_are_joined scenario_A tcp_8080 tcp6_empty [owner_42]
           [{| candidate_port := Num 8080; detail := cmd myserver |}]);
    try (vm_compute; reflexivity).
  apply list_elem_of_singleton. reflexivity.
Defined.

(** ** X10 and X11: numbers read from the texts *)

Lemma digit_value_10 c :
  is_digit c = true -> exists d, digit_value 10 c = Some d /\ 0 <= d < 10.
Proof.
  intros Hc. unfold digit_value. rewrite Hc.
  unfold is_digit in Hc. apply andb_prop in Hc as [Hlo Hhi].
  apply Z.leb_le in Hlo, Hhi.
  exists (code c - 48). rewrite (proj2 (Z.ltb_lt _ _)) by lia. split; [reflexivity | lia].
Qed.

Lemma parse_digits_10 s a :
  every is_digit s = true -> 0 <= a ->
  exists v, parse_digits 10 s (Some a) = Some v /\ 0 <= v.
Proof.
  revert a. induction s as [|c s IH]; intros a Hs Ha; simpl in *.
  - eauto.
  - apply andb_prop in Hs as [Hc Hs].
    destruct (digit_value_10 c Hc) as (d & -> & Hd). apply IH; [exact Hs | lia].
Qed.

Lemma parseInt_string_digit c s :
  is_digit c = true ->
  parseInt_string (String c s) 10 =
  match parse_digits 10 (String c s) None with
  | Some m => Num (1 * m)
  | None => NaN
  end.
Proof.
  intros Hc.
  destruct c as [[] [] [] [] [] [] [] []]; vm_compute in Hc; try discriminate Hc;
    reflexivity.
Qed.

(** [parseInt] reads a run of decimal digits as a natural number. *)
Lemma parseInt_run s :
  run_of is_digit s -> exists v, 0 <= v /\ parseInt (Some s) 10 = Num v.
Proof.
  intros [Hne Hs]. destruct s as [|c s]; [by destruct Hne|].
  simpl in Hs. apply andb_prop in Hs as [Hc Hs].
  unfold parseInt. simpl default. rewrite parseInt_string_digit by exact Hc.
  simpl. destruct (digit_value_10 c Hc) as (d & -> & Hd).
  destruct (parse_digits_10 s (0 * 10 + d) Hs) as (v & -> & Hv); [lia|].
  exists v. split; [exact Hv|]. f_equal. lia.
Qed.

Lemma getSockets_owners stdout owners o :
  getSockets stdout = Ok owners -> o ∈ owners ->
  exists p i, 0 <= p /\ 0 <= i /\ owner_pid o = Num p /\ owner_socket o = Num i.
Proof.
  intros Hs%map_throwing_Ok [n Hn]%list_elem_of_lookup.
  destruct (Forall2_lookup_r _ _ _ _ _ Hs Hn) as (line & _ & Ho).
  unfold to_owner in Ho. destruct (socket_re_exec line) as [[g1 g2]|] eqn:Hm; [|discriminate].
  injection Ho as <-. apply socket_re_exec_sound in Hm as (pre & fd & post & _ & H1 & _ & H2).
  destruct (parseInt_run g1 H1) as (p & Hp & ->).
  destruct (parseInt_run g2 H2) as (i & Hi & ->).
  exists p, i. auto.
Qed.

Lemma parse_digits_10_bound s a :
  every is_digit s = true -> 0 <= a ->
  exists v, parse_digits 10 s (Some a) = Some v /\
    a * 10 ^ Z.of_nat (String.length s) <= v < (a + 1) * 10 ^ Z.of_nat (String.length s).
Proof.
  revert a. induction s as [|c s IH]; intros a Hs Ha.
  - exists a. split; [reflexivity|]. simpl. lia.
  - cbn [every] in Hs. apply andb_prop in Hs as [Hc Hs].
    cbn [parse_digits]. destruct (digit_value_10 c Hc) as (d & -> & Hd). simpl default.
    destruct (IH (a * 10 + d) Hs) as (v & Hv & Hbound); [lia|].
    exists v. split; [exact Hv|].
    cbn [String.length]. rewrite Nat2Z.inj_succ, Z.pow_succ_r by lia.
    pose proof (Z.pow_pos_nonneg 10 (Z.of_nat (String.length s))) as Hpow. nia.
Qed.

Lemma parseInt_run_bound s :
  run_of is_digit s ->
  exists v, 0 <= v < 10 ^ Z.of_nat (String.length s) /\ parseInt (Some s) 10 = Num v.
Proof.
  intros [Hne Hs]. destruct s as [|c s]; [by destruct Hne|].
  cbn [every] in Hs. apply andb_prop in Hs as [Hc Hs].
  unfold parseInt. simpl default. rewrite parseInt_string_digit by exact Hc.
  cbn [parse_digits]. destruct (digit_value_10 c Hc) as (d & -> & Hd). simpl default.
  destruct (parse_digits_10_bound s (0 * 10 + d) Hs) as (v & -> & Hv); [lia|].
  exists v. split; [|f_equal; lia].
  cbn [String.length]. rewrite Nat2Z.inj_succ, Z.pow_succ_r by lia.
  pose proof (Z.pow_pos_nonneg 10 (Z.of_nat (String.length s))) as Hpow. nia.
Qed.

Lemma longest_digit_run_from_ge k s : (k <= longest_digit_run_from k s)%nat.
Proof.
  revert k. induction s as [|c s IH]; intros k; cbn [longest_digit_run_from]; [lia|].
  destruct (is_digit c); [specialize (IH (S k)) | ]; lia.
Qed.

Lemma longest_digit_run_from_mono k k' s :
  (k <= k')%nat -> (longest_digit_run_from k s <= longest_digit_run_from k' s)%nat.
Proof.
  revert k k'. induction s as [|c s IH]; intros k k' Hk; cbn [longest_digit_run_from];
    [lia|].
  destruct (is_digit c); [apply IH | ]; lia.
Qed.

Lemma longest_digit_run_from_digits k d post :
  every is_digit d = true ->
  (k + String.length d <= longest_digit_run_from k (d +:+ post))%nat.
Proof.
  revert k. induction d as [|c d IH]; intros k Hd.
  - change ("" +:+ post) with post. pose proof (longest_digit_run_from_ge k post).
    simpl. lia.
  - cbn [every] in Hd. apply andb_prop in Hd as [Hc Hd].
    change (String c d +:+ post) with (String c (d +:+ post)).
    cbn [longest_digit_run_from String.length]. rewrite Hc.
    specialize (IH (S k) Hd). lia.
Qed.

Lemma longest_digit_run_from_suffix k pre s :
  (longest_digit_run s <= longest_digit_run_from k (pre +:+ s))%nat.
Proof.
  revert k. induction pre as [|c pre IH]; intros k.
  - change ("" +:+ s) with s. apply longest_digit_run_from_mono. lia.
  - change (String c pre +:+ s) with (String c (pre +:+ s)).
    cbn [longest_digit_run_from]. destruct (is_digit c); [apply IH|].
    specialize (IH 0%nat). lia.
Qed.

(** A run of digits that a text shows is no longer than its longest one. *)
Lemma longest_digit_run_occurs pre d post :
  every is_digit d = true ->
  (String.length d <= longest_digit_run (pre +:+ d +:+ post))%nat.
Proof.
  intros Hd. pose proof (longest_digit_run_from_digits 0 d post Hd) as H1.
  pose proof (longest_digit_run_from_suffix 0 pre (d +:+ post)) as H2.
  unfold longest_digit_run in *. lia.
Qed.

Lemma append_assoc (s1 s2 s3 : string) : (s1 +:+ s2) +:+ s3 = s1 +:+ s2 +:+ s3.
Proof.
  induction s1 as [|c s1 IH]; [reflexivity|].
  change (String c ((s1 +:+ s2) +:+ s3) = String c (s1 +:+ s2 +:+ s3)). by rewrite IH.
Qed.

Lemma power_of_short_run (n : nat) : (n <= 15)%nat -> 10 ^ Z.of_nat n <= 10 ^ 15.
Proof. intros Hn. apply Z.pow_le_mono_r; lia. Qed.

(** X10. On a socket enumeration that writes no number of more than 15
    digits, the pid and the inode of every ownership record that
    [getSockets] returns are natural numbers below 10^15: never [NaN], never
    negative, and in the range where a double holds every integer. *)
Theorem owners_are_natural_numbers (stdout : string) (owners : list owner) (o : owner) :
  numbers_exact stdout ->
  getSockets stdout = Ok owners -> o ∈ owners ->
  exists p i, 0 <= p < 10 ^ 15 /\ 0 <= i < 10 ^ 15 /\
    owner_pid o = Num p /\ owner_socket o = Num i.
Proof.
  intros Hexact Hs%map_throwing_Ok [n Hn]%list_elem_of_lookup.
  destruct (Forall2_lookup_r _ _ _ _ _ Hs Hn) as (line & Hline & Ho).
  unfold numbers_exact in Hexact. rewrite Forall_forall in Hexact.
  pose proof (Hexact line (list_elem_of_lookup_2 _ _ _ Hline)) as Hrun.
  unfold to_owner in Ho. destruct (socket_re_exec line) as [[g1 g2]|] eqn:Hm; [|discriminate].
  injection Ho as <-.
  apply socket_re_exec_sound in Hm as (pre & fd & post & Heq & H1 & _ & H2).
  destruct (parseInt_run_bound g1 H1) as (p & Hp & Hpid).
  destruct (parseInt_run_bound g2 H2) as (i & Hi & Hinode).
  assert (String.length g1 <= 15)%nat as Hl1.
  { etrans; [|exact Hrun].
    replace line with
      ((pre +:+ "/proc/") +:+ g1 +:+ "/fd/" +:+ fd +:+ " -> socket:[" +:+ g2 +:+ "]" +:+ post)
      by (by rewrite Heq, !append_assoc).
    apply longest_digit_run_occurs, H1. }
  assert (String.length g2 <= 15)%nat as Hl2.
  { etrans; [|exact Hrun].
    replace line with
      ((pre +:+ "/proc/" +:+ g1 +:+ "/fd/" +:+ fd +:+ " -> socket:[") +:+ g2 +:+ "]" +:+ post)
      by (by rewrite Heq, !append_assoc).
    apply longest_digit_run_occurs, H2. }
  apply power_of_short_run in Hl1, Hl2.
  exists p, i. simpl. repeat split; try assumption; lia.
Qed.

Lemma owners_are_natural_numbers_witness :
  exists p i, 0 <= p < 10 ^ 15 /\ 0 <= i < 10 ^ 15 /\
    owner_pid owner_43 = Num p /\ owner_socket owner_43 = Num i.
Proof.
  apply (owners_are_natural_numbers (procSockets scenario_D) [owner_42; owner_43] owner_43).
  - compute_done.
  - vm_compute. reflexivity.
  - apply elem_of_cons. right. apply list_elem_of_singleton. reflexivity.
Defined.

(** X11. A listening row without [inode] column gives a connection whose
    socket is [NaN], and a connection whose socket is [NaN], for the lack of
    the column or of a digit in it, never has an owner: its port is absent
    from the result. *)
Theorem unreadable_inode_is_dropped :
  (forall row c,
     to_connection row = Ok c -> row !! "inode" = None -> socket c = NaN) /\
  (forall h tcp tcp6 connections ports c,
     isLinux h = true ->
     proc_net_tcp h = Some tcp -> proc_net_tcp6 h = Some tcp6 ->
     loadListeningPorts [tcp; tcp6] = Ok connections ->
     findCandidatePorts h = Ok ports ->
     c ∈ connections -> socket c = NaN ->
     port c ∉ candidate_port <$> ports).
Proof.
  split.
  - intros row c Hc Hinode. unfold to_connection in Hc.
    destruct (row !! "local_address"); [|discriminate]. injection Hc as <-.
    simpl. rewrite Hinode. reflexivity.
  - intros h tcp tcp6 connections ports c Hlinux H4 H6 Hc Hports Hin Hnan.
    destruct (proj1 (findCandidatePorts_Ok _ _ Hlinux) Hports)
      as (tcp' & tcp6' & connections' & sockets & _ & _ & _ & Hs & _).
    apply (dropped_connection h tcp tcp6 connections sockets ports Hlinux H4 H6 Hc Hs Hports c Hin).
    intros p (s & Hsock & _). rewrite Hnan in Hsock.
    apply (index_by_origin owner_socket) in Hsock as [[Hsin Hkey]|Hempty];
      [|by rewrite lookup_empty in Hempty].
    destruct (getSockets_owners _ _ s Hs Hsin) as (p' & i & _ & _ & _ & Hi). congruence.
Qed.

Lemma unreadable_inode_is_dropped_witness :
  Num 8080 ∉ candidate_port <$> ([] : list candidate).
Proof.
  apply (proj2 unreadable_inode_is_dropped
           {| isLinux := true;
              proc_net_tcp := Some (unlines ["local_address st"; "0100007F:1F90 0A"]);
              proc_net_tcp6 := Some "";
              procSockets := procSockets scenario_A;
              procChildren := procChildren scenario_A;
              processes := [myserver] |}
           (unlines ["local_address st"; "0100007F:1F90 0A"]) ""
           [{| socket := NaN; ip := "0100007F"; port := Num 8080 |}] []
           {| socket := NaN; ip := "0100007F"; port := Num 8080 |});
    try (vm_compute; reflexivity).
  apply list_elem_of_singleton. reflexivity.
Defined.

(** ** X12 and X13: the port of a local address *)

Lemma digit_value_16 c :
  is_hex_digit c = true -> exists d, digit_value 16 c = Some d /\ 0 <= d < 16.
Proof.
  unfold is_hex_digit. rewrite bool_decide_eq_true. intros [d Hd]. exists d.
  split; [exact Hd|]. unfold digit_value, is_digit in Hd.
  repeat match type of Hd with
         | context [if ?b then _ else _] => destruct b eqn:?
         end; try discriminate; injection Hd as <-;
    repeat match goal with
           | H : (_ && _) = true |- _ => apply andb_prop in H as [? ?]
           | H : (_ <=? _) = true |- _ => apply Z.leb_le in H
           | H : (_ <? _) = true |- _ => apply Z.ltb_lt in H
           end; lia.
Qed.

Lemma parse_digits_16 s a :
  every is_hex_digit s = true -> 0 <= a ->
  exists v, parse_digits 16 s (Some a) = Some v /\
    0 <= v < (a + 1) * 16 ^ Z.of_nat (String.length s).
Proof.
  revert a. induction s as [|c s IH]; intros a Hs Ha.
  - exists a. split; [reflexivity|]. simpl. lia.
  - simpl in Hs. apply andb_prop in Hs as [Hc Hs].
    destruct (digit_value_16 c Hc) as (d & Hd & Hdr).
    cbn [parse_digits]. rewrite Hd. cbn [default from_option id].
    destruct (IH (a * 16 + d) Hs) as (v & -> & Hv); [lia|].
    exists v. split; [reflexivity|].
    cbn [String.length]. rewrite Nat2Z.inj_succ, Z.pow_succ_r by lia.
    assert (0 < 16 ^ Z.of_nat (String.length s)) by (apply Z.pow_pos_nonneg; lia).
    nia.
Qed.

Lemma parseInt_string_hex c s :
  is_hex_digit c = true -> every is_hex_digit s = true ->
  parseInt_string (String c s) 16 =
  match parse_digits 16 (String c s) None with
  | Some m => Num (1 * m)
  | None => NaN
  end.
Proof.
  intros Hc Hs.
  destruct c as [[] [] [] [] [] [] [] []]; vm_compute in Hc; try discriminate Hc;
    try reflexivity.
  destruct s as [|c2 s]; [reflexivity|].
  simpl in Hs. apply andb_prop in Hs as [Hc2 _].
  destruct c2 as [[] [] [] [] [] [] [] []]; vm_compute in Hc2; try discriminate Hc2;
    reflexivity.
Qed.

(** [parseInt] reads a run of at most four digits of radix 16 as a number
    below 65536. *)
Lemma parseInt_hex_run hex :
  run_of is_hex_digit hex -> (String.length hex <= 4)%nat ->
  exists v, 0 <= v <= 65535 /\ parseInt (Some hex) 16 = Num v.
Proof.
  intros [Hne Hs] Hlen. destruct hex as [|c s]; [by destruct Hne|].
  simpl in Hs. apply andb_prop in Hs as [Hc Hs].
  unfold parseInt. simpl default. rewrite parseInt_string_hex by assumption.
  cbn [parse_digits]. destruct (digit_value_16 c Hc) as (d & -> & Hd).
  cbn [default from_option id].
  destruct (parse_digits_16 s (0 * 16 + d) Hs) as (v & -> & Hv); [lia|].
  exists v. split; [|f_equal; lia].
  cbn [String.length] in Hlen.
  assert (16 ^ Z.of_nat (String.length s) <= 16 ^ 3) by (apply Z.pow_le_mono_r; lia).
  assert (0 < 16 ^ Z.of_nat (String.length s)) by (apply Z.pow_pos_nonneg; lia).
  change (16 ^ 3) with 4096 in *. nia.
Qed.

Lemma every_impl (P Q : ascii -> bool) s :
  (forall c, P c = true -> Q c = true) -> every P s = true -> every Q s = true.
Proof.
  intros HPQ. induction s as [|c s IH]; simpl; [reflexivity|].
  intros [Hc Hs]%andb_prop. by rewrite (HPQ c Hc), IH.
Qed.

Lemma hex_without_colon hex : every is_hex_digit hex = true -> without ":" hex.
Proof.
  apply every_impl. intros c Hc.
  destruct (Ascii.eqb_spec c ":") as [->|_]; [vm_compute in Hc; discriminate | reflexivity].
Qed.

(** X12. For a row whose local address is [HEXIP:HEXPORT], with a port field
    of one to four digits of radix 16, the connection has this [HEXIP] as ip
    and a port between 0 and 65535. *)
Theorem port_of_local_address (row : gmap string string) (hexip hexport : string) :
  row !! "local_address" = Some (hexip +:+ ":" +:+ hexport) ->
  without ":" hexip ->
  run_of is_hex_digit hexport -> (String.length hexport <= 4)%nat ->
  exists v,
    0 <= v <= 65535 /\
    to_connection row =
      Ok {| socket := parseInt (row !! "inode") 10; ip := hexip; port := Num v |}.
Proof.
  intros Hrow Hip Hport Hlen.
  destruct (parseInt_hex_run hexport Hport Hlen) as (v & Hv & Hparse).
  exists v. split; [exact Hv|]. unfold to_connection. rewrite Hrow.
  change (hexip +:+ ":" +:+ hexport) with (hexip +:+ String ":" hexport).
  rewrite split_at_first by exact Hip.
  rewrite split_without by (apply hex_without_colon, Hport).
  simpl. by rewrite Hparse.
Qed.

Lemma port_of_local_address_witness :
  let row : gmap string string :=
    {[ "local_address" := "0100007F:1F90"; "inode" := "12345" ]} in
  exists v,
    0 <= v <= 65535 /\
    to_connection row =
      Ok {| socket := parseInt (row !! "inode") 10; ip := "0100007F"; port := Num v |}.
Proof.
  intros row. apply (port_of_local_address row "0100007F" "1F90").
  - reflexivity.
  - reflexivity.
  - split; [discriminate | reflexivity].
  - simpl. lia.
Defined.

(** X13. A local address without a colon has no port field: the connection
    takes the whole address as ip and [NaN] as port. *)
Theorem port_of_address_without_colon (row : gmap string string) (address : string) :
  row !! "local_address" = Some address ->
  without ":" address ->
  to_connection row =
    Ok {| socket := parseInt (row !! "inode") 10; ip := address; port := NaN |}.
Proof.
  intros Hrow Haddress. unfold to_connection. rewrite Hrow.
  rewrite split_without by exact Haddress. reflexivity.
Qed.

Lemma port_of_address_without_colon_witness :
  let row : gmap string string := {[ "local_address" := "0100007F" ]} in
  to_connection row =
    Ok {| socket := parseInt (row !! "inode") 10; ip := "0100007F"; port := NaN |}.
Proof.
  intros row. apply (port_of_address_without_colon row "0100007F");
    vm_compute; reflexivity.
Defined.

(** ** X14: which exception *)

Lemma loadListeningPorts_Throw stdouts e :
  loadListeningPorts stdouts = Throw e -> e = TypeError.
Proof.
  unfold loadListeningPorts, listening_records.
  rewrite map_throwing_loadConnectionTable. simpl.
  destruct (map_throwing to_connection _) as [records|e'] eqn:Hr; simpl; [discriminate|].
  intros [= ->]. apply map_throwing_Throw in Hr as (row & _ & Hrow).
  unfold to_connection in Hrow. destruct (row !! "local_address"); congruence.
Qed.

Lemma getSockets_Throw stdout e : getSockets stdout = Throw e -> e = TypeError.
Proof.
  intros (line & _ & Hline)%map_throwing_Throw. unfold to_owner in Hline.
  destruct (socket_re_exec line) as [[g1 g2]|]; congruence.
Qed.

Lemma push_candidates_Throw socketMap processMap connections ports e :
  push_candidates socketMap processMap connections ports = Throw e -> e = TypeError.
Proof.
  revert ports. induction connections as [|c cs IH]; intros ports; simpl; [discriminate|].
  destruct (socketMap !! socket c) as [s|]; [|congruence].
  destruct (processMap !! owner_pid s) as [p|]; [|congruence].
  destruct (_ && _); apply IH.
Qed.

(** The failure on an empty enumeration is general: on Linux, with the
    tables and [/proc] readable, a pipeline that prints nothing but white
    space makes the call throw a TypeError, whatever the tables and the
    inventory hold. *)
Lemma blank_enumeration_raises h :
  isLinux h = true ->
  is_Some (proc_net_tcp h) -> is_Some (proc_net_tcp6 h) -> is_Some (procChildren h) ->
  blank (procSockets h) ->
  findCandidatePorts h = Throw TypeError.
Proof.
  intros Hlinux [tcp H4] [tcp6 H6] [names Hnames] Hblank.
  unfold findCandidatePorts. rewrite Hlinux, H4, H6, Hnames. simpl.
  destruct (loadListeningPorts [tcp; tcp6]) as [connections|e] eqn:Hc; simpl.
  - unfold getSockets. rewrite lines_of_blank by exact Hblank. reflexivity.
  - apply loadListeningPorts_Throw in Hc. by subst e.
Qed.

(** X14. On Linux the discovery throws the error of the file system exactly
    when one of the two connection tables or the directory [/proc] cannot be
    read, be it the IPv6 table alone; the directory is read before any text
    is parsed, so that its error wins over those of the parsing, and
    whatever is thrown while parsing or joining is a TypeError. *)
Theorem unreadable_table_raises (h : host) :
  isLinux h = true ->
  (findCandidatePorts h = Throw SystemError <->
   proc_net_tcp h = None \/ proc_net_tcp6 h = None \/ procChildren h = None).
Proof.
  intros Hlinux. unfold findCandidatePorts. rewrite Hlinux. simpl.
  destruct (proc_net_tcp h) as [tcp|]; simpl; [|intuition].
  destruct (proc_net_tcp6 h) as [tcp6|]; simpl; [|intuition].
  destruct (procChildren h) as [names|]; simpl; [|intuition].
  split; [|intros [[=]|[[=]|[=]]]].
  destruct (loadListeningPorts [tcp; tcp6]) as [connections|e] eqn:Hc; simpl.
  - destruct (getSockets (procSockets h)) as [sockets|e] eqn:Hs; simpl.
    + intros He%push_candidates_Throw. discriminate.
    + intros [= ->]. apply getSockets_Throw in Hs. discriminate.
  - intros [= ->]. apply loadListeningPorts_Throw in Hc. discriminate.
Qed.

Lemma unreadable_table_raises_witness :
  findCandidatePorts
    {| isLinux := true; proc_net_tcp := Some tcp_8080; proc_net_tcp6 := None;
       procSockets := procSockets scenario_A; procChildren := procChildren scenario_A;
       processes := [myserver] |} =
  Throw SystemError /\
  findCandidatePorts
    {| isLinux := true; proc_net_tcp := Some (unlines ["st"; "0A"]); proc_net_tcp6 := Some tcp6_empty;
       procSockets := ""; procChildren := None; processes := [] |} =
  Throw SystemError.
Proof.
  split.
  - apply (proj2 (unreadable_table_raises
                    {| isLinux := true; proc_net_tcp := Some tcp_8080; proc_net_tcp6 := None;
                       procSockets := procSockets scenario_A;
                       procChildren := procChildren scenario_A;
                       processes := [myserver] |}
                    eq_refl)).
    right. left. reflexivity.
  - apply (proj2 (unreadable_table_raises
                    {| isLinux := true; proc_net_tcp := Some (unlines ["st"; "0A"]);
                       proc_net_tcp6 := Some tcp6_empty;
                       procSockets := ""; procChildren := None; processes := [] |}
                    eq_refl)).
    right. right. reflexivity.
Defined.

(** ** X15: the working directories *)

Lemma processMap_fold_fmap (g : process -> process) (processes : list process)
    (m : gmap number process) :
  (forall p, pid (g p) = pid p) ->
  foldl (fun m p => <[Num (pid p) := p]> m) (g <$> m) (map g processes) =
  g <$> foldl (fun m p => <[Num (pid p) := p]> m) m processes.
Proof.
  intros Hg. revert m. induction processes as [|p ps IH]; intros m; [reflexivity|].
  simpl. rewrite <- IH, fmap_insert, Hg. reflexivity.
Qed.

Lemma processMap_of_with_cwd (f : process -> string) (processes : list process) :
  processMap_of (map (fun p => {| pid := pid p; cwd := f p; cmd := cmd p |}) processes) =
  (fun p => {| pid := pid p; cwd := f p; cmd := cmd p |}) <$> processMap_of processes.
Proof.
  unfold processMap_of. rewrite <- processMap_fold_fmap by reflexivity.
  by rewrite fmap_empty.
Qed.

Lemma push_candidates_with_cwd (g : process -> process) socketMap processMap connections ports :
  (forall p, cmd (g p) = cmd p) ->
  push_candidates socketMap (g <$> processMap) connections ports =
  push_candidates socketMap processMap connections ports.
Proof.
  intros Hg. revert ports. induction connections as [|c cs IH]; intros ports; [reflexivity|].
  simpl. destruct (socketMap !! socket c) as [s|]; [|reflexivity].
  rewrite lookup_fmap. destruct (processMap !! owner_pid s) as [p|]; [|reflexivity].
  simpl. rewrite Hg. destruct (_ && _); apply IH.
Qed.

(** X15. The working directory that the scan gathers for each process is
    never used: with any other working directories in the inventory the
    discovery returns, or throws, the same. *)
Theorem working_directory_unused (f : process -> string) (h : host) :
  findCandidatePorts (with_cwd f h) = findCandidatePorts h.
Proof.
  unfold findCandidatePorts, with_cwd. simpl.
  destruct (isLinux h); [|reflexivity]. simpl.
  destruct (readFileSync (proc_net_tcp h)) as [tcp|]; [|reflexivity]. simpl.
  destruct (readFileSync (proc_net_tcp6 h)) as [tcp6|]; [|reflexivity]. simpl.
  destruct (readdirSync (procChildren h)) as [names|]; [|reflexivity]. simpl.
  destruct (loadListeningPorts [tcp; tcp6]) as [connections|]; [|reflexivity]. simpl.
  destruct (getSockets (procSockets h)) as [sockets|]; [|reflexivity]. simpl.
  rewrite processMap_of_with_cwd. by apply push_candidates_with_cwd.
Qed.

(** ** X16 and X17: the candidates of the view *)

Lemma push_candidate_shown model candidates value :
  TunnelViewModel.push_candidate model candidates value =
  if decide (shown model value) then candidates ++ [TunnelViewModel.candidate_item value]
  else candidates.
Proof.
  unfold TunnelViewModel.push_candidate, shown, Map_has.
  destruct (decide _) as [[Hf Hd]|Hn].
  - by rewrite !bool_decide_eq_false_2.
  - repeat case_bool_decide; simpl; try reflexivity. tauto.
Qed.

Lemma foldl_push_candidate model candidates values :
  foldl (TunnelViewModel.push_candidate model) candidates values =
  candidates ++ map TunnelViewModel.candidate_item (filter (shown model) values).
Proof.
  revert candidates. induction values as [|value values IH]; intros candidates.
  - simpl. by rewrite app_nil_r.
  - cbn [foldl]. rewrite IH, push_candidate_shown, filter_cons.
    destruct (decide (shown model value)); [|reflexivity].
    by rewrite <- app_assoc.
Qed.

Lemma view_candidates_Ok model values :
  TunnelModel.candidates model = Ok values ->
  TunnelViewModel.candidates model =
  Ok (map TunnelViewModel.candidate_item (filter (shown model) values)).
Proof.
  intros Hvalues. unfold TunnelViewModel.candidates. rewrite Hvalues. simpl.
  by rewrite foldl_push_candidate.
Qed.

(** X16. The candidate items of the view are, in the order of the model, the
    candidates of the model whose port is neither forwarded nor detected,
    each as an item of type [Candidate] that is not closeable, has no local
    address and no name; no candidate item has a forwarded or detected
    port. *)
Theorem view_candidates_are_the_unknown_ports (model : TunnelModel.t)
    (values : list candidate) :
  TunnelModel.candidates model = Ok values ->
  exists items,
    TunnelViewModel.candidates model = Ok items /\
    items = map TunnelViewModel.candidate_item (filter (shown model) values) /\
    forall item, item ∈ items ->
      Map_has (TunnelModel.forwarded model) (TunnelItem.remote item) = false /\
      Map_has (TunnelModel.detected model) (TunnelItem.remote item) = false /\
      TunnelItem.tunnelType item = Candidate.
Proof.
  intros Hvalues. eexists. split; [by apply view_candidates_Ok|]. split; [reflexivity|].
  intros item (value & -> & [[Hf Hd] _]%list_elem_of_filter)%list_elem_of_fmap.
  unfold Map_has. simpl. by rewrite !bool_decide_eq_false_2.
Qed.

Lemma findCandidatePorts_NoDup h ports :
  findCandidatePorts h = Ok ports -> NoDup (candidate_port <$> ports).
Proof.
  intros Hports. destruct (isLinux h) eqn:Hlinux.
  - destruct (proj1 (findCandidatePorts_Ok _ _ Hlinux) Hports)
      as (tcp & tcp6 & connections & sockets & H4 & H6 & Hc & Hs & _).
    exact (NoDup_result h tcp tcp6 connections sockets ports Hlinux H4 H6 Hc Hs Hports).
  - rewrite findCandidatePorts_not_linux in Hports by exact Hlinux. injection Hports as <-.
    apply NoDup_nil_2.
Qed.

Lemma findCandidatePorts_not_excluded h ports e :
  findCandidatePorts h = Ok ports -> e ∈ ports -> excluded (detail e) = false.
Proof.
  intros Hports He. destruct (isLinux h) eqn:Hlinux.
  - destruct (proj1 (findCandidatePorts_Ok _ _ Hlinux) Hports)
      as (tcp & tcp6 & connections & sockets & H4 & H6 & Hc & Hs & _).
    destruct (proj1 (elem_of_result h tcp tcp6 connections sockets ports Hlinux H4 H6 Hc Hs
                       Hports e) He) as (c & p & _ & _ & Hex & ->).
    exact Hex.
  - rewrite findCandidatePorts_not_linux in Hports by exact Hlinux. injection Hports as <-.
    by apply not_elem_of_nil in He.
Qed.

(** X17. When the candidates of the model are the result of the discovery,
    the candidate items of the view have pairwise distinct ports, and the
    description of each is a command line that neither contains
    [out/vs/server/main.js] nor shows the directory of the exclusion pattern
    as the code compiles it: a character that is no line terminator, then
    [vscode-server-], one or more letters and [/bin]. *)
Theorem view_of_the_discovery (h : host) (model : TunnelModel.t)
    (items : list TunnelItem.t) :
  TunnelModel.candidates model = findCandidatePorts h ->
  TunnelViewModel.candidates model = Ok items ->
  NoDup (TunnelItem.remote <$> items) /\
  forall item, item ∈ items ->
    exists command,
      TunnelItem._description item = Some command /\
      ~ agent_dir_shape command /\ ~ occurs_in "out/vs/server/main.js" command.
Proof.
  intros Hmodel Hitems. unfold TunnelViewModel.candidates in Hitems.
  apply bind_Ok in Hitems as (values & Hvalues & [= <-]).
  rewrite Hmodel in Hvalues. rewrite foldl_push_candidate. simpl. split.
  - rewrite <- list_fmap_compose.
    eapply sublist_NoDup; [exact (findCandidatePorts_NoDup _ _ Hvalues)|].
    change (TunnelItem.remote ∘ TunnelViewModel.candidate_item) with candidate_port.
    apply fmap_sublist, sublist_filter.
  - intros item (value & -> & [_ Hvalue]%list_elem_of_filter)%list_elem_of_fmap.
    exists (detail value). split; [reflexivity|].
    pose proof (findCandidatePorts_not_excluded _ _ _ Hvalues Hvalue) as Hex.
    apply orb_false_elim in Hex as [Hdir Hmain].
    rewrite <- agent_dir_match_spec, <- includes_spec, Hdir, Hmain.
    split; discriminate.
Qed.

Lemma view_candidates_are_the_unknown_ports_witness :
  TunnelViewModel.candidates
    (model_with (Ok [{| candidate_port := Num 3000; detail := "node server.js" |};
                     {| candidate_port := Num 8080; detail := cmd myserver |}])) =
  Ok [TunnelViewModel.candidate_item {| candidate_port := Num 8080; detail := cmd myserver |}].
Proof.
  destruct (view_candidates_are_the_unknown_ports
              (model_with (Ok [{| candidate_port := Num 3000; detail := "node server.js" |};
                               {| candidate_port := Num 8080; detail := cmd myserver |}]))
              _ eq_refl) as (items & Hitems & -> & _).
  exact Hitems.
Defined.

Lemma view_of_the_discovery_witness :
  NoDup (TunnelItem.remote <$>
           [TunnelViewModel.candidate_item
              {| candidate_port := Num 8080; detail := cmd otherserver |}]) /\
  forall item,
    item ∈ [TunnelViewModel.candidate_item
              {| candidate_port := Num 8080; detail := cmd otherserver |}] ->
    exists command,
      TunnelItem._description item = Some command /\
      ~ agent_dir_shape command /\ ~ occurs_in "out/vs/server/main.js" command.
Proof.
  apply (view_of_the_discovery scenario_D (model_with (findCandidatePorts scenario_D))).
  - reflexivity.
  - vm_compute. reflexivity.
Defined.

(** ** X18, X19 and X20: the groups and the tree *)

Lemma forwarded_items model item :
  item ∈ TunnelViewModel.forwarded model -> TunnelItem.tunnelType item = Forwarded.
Proof. intros (tunnel & -> & _)%list_elem_of_fmap. reflexivity. Qed.

Lemma detected_items model item :
  item ∈ TunnelViewModel.detected model -> TunnelItem.tunnelType item = Detected.
Proof. intros (tunnel & -> & _)%list_elem_of_fmap. reflexivity. Qed.

Lemma candidate_items model items item :
  TunnelViewModel.candidates model = Ok items -> item ∈ items ->
  TunnelItem.tunnelType item = Candidate.
Proof.
  unfold TunnelViewModel.candidates. intros (values & _ & [= <-])%bind_Ok.
  rewrite foldl_push_candidate. intros (value & -> & _)%list_elem_of_fmap. reflexivity.
Qed.

Lemma Map_size_items {V B} (f : V -> B) (m : list (number * V)) :
  (0 <? Map_size m) = true -> map f (Map_values m) <> [].
Proof. destruct m; [discriminate | simpl; congruence]. Qed.

Lemma forwarded_group_filled (localize : Localize) model :
  (0 <? Map_size (TunnelModel.forwarded model)) = true ->
  filled {| ITunnelGroup.label := localize "remote.tunnelsView.forwarded" "Forwarded" [];
            ITunnelGroup.tunnelType := Forwarded;
            ITunnelGroup.items := Some (TunnelViewModel.forwarded model) |}.
Proof.
  intros Hsize. exists (TunnelViewModel.forwarded model). split; [reflexivity|].
  split; [by apply Map_size_items | apply forwarded_items].
Qed.

Lemma detected_group_filled (localize : Localize) model :
  (0 <? Map_size (TunnelModel.detected model)) = true ->
  filled {| ITunnelGroup.label := localize "remote.tunnelsView.detected" "Detected" [];
            ITunnelGroup.tunnelType := Detected;
            ITunnelGroup.items := Some (TunnelViewModel.detected model) |}.
Proof.
  intros Hsize. exists (TunnelViewModel.detected model). split; [reflexivity|].
  split; [by apply Map_size_items | apply detected_items].
Qed.

Lemma candidates_group_filled (localize : Localize) model items :
  TunnelViewModel.candidates model = Ok items ->
  (0 <? length items)%nat = true ->
  filled {| ITunnelGroup.label := localize "remote.tunnelsView.candidates" "Candidates" [];
            ITunnelGroup.tunnelType := Candidate;
            ITunnelGroup.items := Some items |}.
Proof.
  intros Hitems Hlen. exists items. split; [reflexivity|]. split.
  - destruct items; [discriminate | congruence].
  - intros item. apply (candidate_items model items item Hitems).
Qed.

(** The groups that [groups] returns: the filled groups among forwarded,
    detected and candidates, in this order, then the entry to forward a
    port. *)
Lemma groups_Ok (localize : Localize) model groups :
  TunnelViewModel.groups localize model = Ok groups ->
  exists front,
    groups = front ++ [add_group localize] /\
    ITunnelGroup.tunnelType <$> front `sublist_of` [Forwarded; Detected; Candidate] /\
    Forall filled front.
Proof.
  unfold TunnelViewModel.groups.
  destruct (TunnelViewModel.candidates model) as [items|e] eqn:Hitems; [|discriminate].
  cbn [mbind result_bind].
  pose proof (forwarded_group_filled localize model) as Hf.
  pose proof (detected_group_filled localize model) as Hd.
  pose proof (candidates_group_filled localize model items Hitems) as Hc.
  destruct (0 <? Map_size (TunnelModel.forwarded model));
    destruct (0 <? Map_size (TunnelModel.detected model));
    destruct (0 <? length items)%nat;
    intros [= <-];
    match goal with |- exists front, ?l = _ /\ _ => exists (removelast l) end;
    (split; [reflexivity|]); simpl;
    (split; [repeat first [apply sublist_nil | apply sublist_skip | apply sublist_cons]
            |repeat constructor; auto]).
Qed.

(** X18. The groups of the view are, in this order, the group of the
    forwarded tunnels, that of the detected tunnels, that of the candidates
    and the entry to forward a port: a group of tunnels is there exactly when
    it has an item, the entry is always there and always last, and the items
    of a group are all the items of its type that the view has, for the
    candidates those that [candidates] returns. *)
Theorem groups_of_the_view (localize : Localize) (model : TunnelModel.t)
    (groups : list ITunnelGroup.t) :
  TunnelViewModel.groups localize model = Ok groups ->
  exists candidates,
    TunnelViewModel.candidates model = Ok candidates /\
    ITunnelGroup.tunnelType <$> groups =
      filter (fun T => present model candidates T = true)
        [Forwarded; Detected; Candidate; Add] /\
    forall group, group ∈ groups ->
      ITunnelGroup.items group = items_of model candidates (ITunnelGroup.tunnelType group).
Proof.
  intros H. unfold TunnelViewModel.groups in H.
  destruct (TunnelViewModel.candidates model) as [cs|e] eqn:Hcs; [|discriminate].
  cbn [mbind result_bind] in H. exists cs. split; [reflexivity|]. clear Hcs.
  destruct model as [fw dt values].
  destruct fw as [|f fw]; destruct dt as [|d dt]; destruct cs as [|c cs];
    cbn in H; injection H as <-;
    (split; [reflexivity|]); intros group Hgroup;
    repeat (apply elem_of_cons in Hgroup as [-> | Hgroup]); try reflexivity;
    by apply not_elem_of_nil in Hgroup.
Qed.

Lemma groups_of_the_view_witness :
  let model :=
    model_with (Ok [{| candidate_port := Num 3000; detail := "node server.js" |};
                    {| candidate_port := Num 8080; detail := cmd myserver |}]) in
  exists groups,
    TunnelViewModel.groups default_message model = Ok groups /\
    ITunnelGroup.tunnelType <$> groups = [Forwarded; Candidate; Add] /\
    ITunnelGroup.items <$> groups =
      [Some (TunnelViewModel.forwarded model);
       Some [TunnelViewModel.candidate_item
               {| candidate_port := Num 8080; detail := cmd myserver |}];
       None].
Proof.
  intros model. eexists. split; [reflexivity|].
  destruct (groups_of_the_view default_message model _ eq_refl)
    as (candidates & Hcandidates & Htypes & _).
  injection Hcandidates as <-. split; [exact Htypes | reflexivity].
Defined.

(** X19. When the promise of the candidates is rejected, [groups] is rejected
    with the same error and the root of the tree gets no children at all:
    neither the forwarded and detected tunnels nor the entry to forward a
    port are shown. *)
Theorem rejected_candidates_empty_the_view (localize : Localize) (model : TunnelModel.t)
    (e : exception) :
  TunnelModel.candidates model = Throw e ->
  TunnelViewModel.candidates model = Throw e /\
  TunnelViewModel.groups localize model = Throw e /\
  TunnelDataSource.getChildren localize (TunnelDataSource.ViewModel model) = Throw e.
Proof.
  intros Hmodel.
  assert (TunnelViewModel.candidates model = Throw e) as Hitems
    by (unfold TunnelViewModel.candidates; by rewrite Hmodel).
  assert (TunnelViewModel.groups localize model = Throw e) as Hgroups
    by (unfold TunnelViewModel.groups; by rewrite Hitems).
  split; [exact Hitems|]. split; [exact Hgroups|].
  unfold TunnelDataSource.getChildren. by rewrite Hgroups.
Qed.

Lemma rejected_candidates_empty_the_view_witness :
  TunnelViewModel.groups default_message
    (model_with (findCandidatePorts scenario_no_inventory)) = Throw TypeError.
Proof.
  apply (rejected_candidates_empty_the_view default_message
           (model_with (findCandidatePorts scenario_no_inventory)) TypeError).
  vm_compute. reflexivity.
Defined.

(** X20. The tree has two levels under its root: the children of the root
    are groups, at least one; a group that has children has at least one,
    a group that has none yields none; and the children of a group are items,
    which have no children. *)
Theorem tree_has_two_levels (localize : Localize) (model : TunnelModel.t)
    (children : list TunnelDataSource.element) :
  TunnelDataSource.getChildren localize (TunnelDataSource.ViewModel model) = Ok children ->
  children <> [] /\
  forall child, child ∈ children ->
    exists grandchildren,
      TunnelDataSource.getChildren localize child = Ok grandchildren /\
      (TunnelDataSource.hasChildren child = true <-> grandchildren <> []) /\
      forall grandchild, grandchild ∈ grandchildren ->
        TunnelDataSource.hasChildren grandchild = false /\
        TunnelDataSource.getChildren localize grandchild = Ok [].
Proof.
  cbn [TunnelDataSource.getChildren].
  intros (groups & Hgroups & [= <-])%bind_Ok.
  apply groups_Ok in Hgroups as (gs & Hgs & _ & Hfront). subst groups. split.
  - rewrite map_app. intros Heq. by apply app_eq_nil in Heq as [_ ?].
  - intros child (group & -> & Hgroup)%list_elem_of_fmap.
    apply elem_of_app in Hgroup as [Hgroup | ->%list_elem_of_singleton].
    + rewrite Forall_forall in Hfront.
      destruct (Hfront group Hgroup) as (items & Hitems & Hne & _).
      exists (map TunnelDataSource.Item items). cbn. rewrite Hitems. split; [reflexivity|].
      split.
      * split; [intros _ | intros _; by apply bool_decide_eq_true].
        destruct items; [done | discriminate].
      * intros grandchild (item & -> & _)%list_elem_of_fmap. auto.
    + exists []. cbn. split; [reflexivity|]. split; [split; [discriminate | done]|].
      intros grandchild []%not_elem_of_nil.
Qed.

Lemma tree_has_two_levels_witness :
  map TunnelDataSource.Group
    [ {| ITunnelGroup.label := "Forwarded";
         ITunnelGroup.tunnelType := Forwarded;
         ITunnelGroup.items := Some (TunnelViewModel.forwarded (model_with (Ok []))) |};
      add_group default_message ] <> [].
Proof.
  apply (tree_has_two_levels default_message (model_with (Ok []))). reflexivity.
Defined.

(** ** X21: the authority of the descriptor *)

Lemma split_head sep s :
  exists r rest,
    split sep s = r :: rest /\ without sep r /\
    (s = r \/ exists b, s = r +:+ String sep b).
Proof.
  unfold without. induction s as [|c s IH]; simpl.
  - exists "", []. auto.
  - destruct IH as (r & rest & Hsplit & Hr & Hs).
    destruct (Ascii.eqb_spec c sep) as [->|Hne].
    + exists "", (split sep s). split; [reflexivity|]. split; [reflexivity|].
      right. exists s. reflexivity.
    + rewrite Hsplit. exists (String c r), rest. split; [reflexivity|]. split.
      * simpl. rewrite Hr. by rewrite (proj2 (Ascii.eqb_neq c sep) Hne).
      * destruct Hs as [->|(b & ->)]; [auto|]. right. exists b. reflexivity.
Qed.

(** X21. The authority that the descriptor of the panel keeps is the
    configured remote authority up to its first [+], without it: the whole
    authority when it has no [+].  Without a configured authority, or with an
    empty one, the descriptor keeps none. *)
Theorem descriptor_authority (remoteAuthority : option string) :
  match descriptor_remoteAuthority remoteAuthority with
  | Some kept =>
      exists configured,
        remoteAuthority = Some configured /\ configured <> "" /\
        without "+" kept /\
        (configured = kept \/ exists rest, configured = kept +:+ "+" +:+ rest)
  | None => remoteAuthority = None \/ remoteAuthority = Some ""
  end.
Proof.
  unfold descriptor_remoteAuthority.
  destruct remoteAuthority as [configured|]; [|cbn; auto].
  destruct configured as [|c s]; [cbn; auto|]. cbn [truthy default from_option id].
  destruct (split_head "+" (String c s)) as (kept & rest & -> & Hkept & Hs). cbn.
  exists (String c s). split; [reflexivity|]. split; [discriminate|]. auto.
Qed.

Lemma descriptor_authority_witness :
  descriptor_remoteAuthority (Some "ssh-remote+myhost") = Some "ssh-remote".
Proof.
  pose proof (descriptor_authority (Some "ssh-remote+myhost")) as H.
  destruct (descriptor_remoteAuthority (Some "ssh-remote+myhost")) as [kept|] eqn:Hkept;
    [|destruct H; discriminate].
  vm_compute in Hkept. symmetry. exact Hkept.
Defined.

(** ** X22: the texts of a candidate *)

(** X22. Every candidate item of the view is labelled by the message
    [{0} not forwarded] formatted with its port alone, and is described by
    the command line of its candidate, or not at all when this command line
    is empty. *)
Theorem candidate_texts (localize : Localize) (model : TunnelModel.t)
    (items : list TunnelItem.t) (item : TunnelItem.t) :
  TunnelViewModel.candidates model = Ok items ->
  item ∈ items ->
  TunnelItem.label localize item =
    localize "remote.tunnelsView.forwardedPortLabel3" "{0} not forwarded"
      [ArgNumber (TunnelItem.remote item)] /\
  exists value,
    item = TunnelViewModel.candidate_item value /\
    TunnelItem.description localize item =
      (if decide (detail value = "") then None else Some (detail value)).
Proof.
  unfold TunnelViewModel.candidates. intros (values & _ & [= <-])%bind_Ok.
  rewrite foldl_push_candidate. intros (value & -> & _)%list_elem_of_fmap.
  split; [reflexivity|]. exists value. split; [reflexivity|].
  unfold TunnelItem.description. cbn.
  destruct (detail value); [reflexivity|]. rewrite decide_False by discriminate. reflexivity.
Qed.

Lemma candidate_texts_witness :
  TunnelItem.label default_message
    (TunnelViewModel.candidate_item {| candidate_port := Num 8080; detail := cmd myserver |}) =
  "{0} not forwarded".
Proof.
  apply (candidate_texts default_message
           (model_with (Ok [{| candidate_port := Num 8080; detail := cmd myserver |}]))
           [TunnelViewModel.candidate_item
              {| candidate_port := Num 8080; detail := cmd myserver |}]).
  - reflexivity.
  - apply list_elem_of_singleton. reflexivity.
Defined.
